(** * QAOA for MaxCut: a shallow embedding of [main.py] and [test.py]

    The two Python files describe a layered QAOA circuit with PennyLane,
    an objective built from per-edge Z(x)Z expectation values, and a
    reporter that tabulates sampled bitstrings.

    Numbers of the program (angles, amplitudes, costs) are modelled as
    real numbers [R]; integers that index wires, layers and samples are
    [nat].  A Python exception is the name of its class. *)

From Stdlib Require Import String Ascii.
From Stdlib Require Import Reals Lra Lia List Arith Bool.
Import ListNotations.

(* ================================================================== *)
(** * Python results and the state-and-exception monad *)
(* ================================================================== *)

Definition exn := string.

Inductive result (A : Type) : Type :=
| Ok (a : A)
| Raise (e : exn).

Arguments Ok {A} a.
Arguments Raise {A} e.

Definition result_map {A B} (f : A -> B) (r : result A) : result B :=
  match r with
  | Ok a => Ok (f a)
  | Raise e => Raise e
  end.

(** A computation that reads and updates a state [S] and may raise.  The
    state reached when the exception is raised is kept, as in Python. *)
Definition SE (S A : Type) : Type := S -> result A * S.

Definition ret {S A} (a : A) : SE S A := fun s => (Ok a, s).

Definition bind {S A B} (c : SE S A) (k : A -> SE S B) : SE S B :=
  fun s =>
    match c s with
    | (Ok a, s') => k a s'
    | (Raise e, s') => (Raise e, s')
    end.

Definition lift {S A} (r : result A) : SE S A := fun s => (r, s).

Declare Scope se_scope.
Delimit Scope se_scope with se.
Notation "x <- c ;; k" := (bind c (fun x => k))
  (at level 61, c at next level, right associativity) : se_scope.
Notation "c ;; k" := (bind c (fun _ => k))
  (at level 61, right associativity) : se_scope.
Local Open Scope se_scope.

(** [for x in xs: acc = body(acc, x)] *)
Fixpoint for_acc {S X A} (xs : list X) (acc : A) (body : A -> X -> SE S A)
  : SE S A :=
  match xs with
  | [] => ret acc
  | x :: xs' => acc' <- body acc x ;; for_acc xs' acc' body
  end.

(** [for x in xs: body(x)] *)
Definition for_ {S X} (xs : list X) (body : X -> SE S unit) : SE S unit :=
  for_acc xs tt (fun _ x => body x).

(** [range(n)] *)
Definition range (n : nat) : list nat := seq 0 n.

(** [l[i]] for a non-negative index. *)
Definition index {A} (l : list A) (i : nat) : result A :=
  match nth_error l i with
  | Some a => Ok a
  | None => Raise "IndexError"%string
  end.

(* ================================================================== *)
(** * PennyLane: operations, measurements, the queue of a quantum function *)
(* ================================================================== *)

Inductive Op : Type :=
| Hadamard (wire : nat)
| RX (theta : R) (wire : nat)
| RZ (theta : R) (wire : nat)
| CNOT (control target : nat).

(** [qml.PauliZ(i) @ qml.PauliZ(j)] *)
Inductive Observable : Type :=
| PauliZZ (i j : nat).

(** What a quantum function returns, indexed by the type of the value the
    device produces for it: [qml.sample()] gives a bit sequence,
    [qml.expval(H)] a real number. *)
Inductive Measurement : Type -> Type :=
| Sample : Measurement (list bool)
| Expval : Observable -> Measurement R.

(** Inside a quantum function every [qml.<Gate>(...)] call appends the
    operation to the queue being recorded. *)
Definition Queue (A : Type) : Type := SE (list Op) A.

Definition enqueue (op : Op) : Queue unit := fun q => (Ok tt, q ++ [op]).

Definition qml_Hadamard (wires : nat) : Queue unit := enqueue (Hadamard wires).
Definition qml_RX (theta : R) (wires : nat) : Queue unit := enqueue (RX theta wires).
Definition qml_RZ (theta : R) (wires : nat) : Queue unit := enqueue (RZ theta wires).
Definition qml_CNOT (w1 w2 : nat) : Queue unit := enqueue (CNOT w1 w2).

(** [qml.device(name, wires=..., shots=...)] *)
Record Device : Type := mkDevice {
  dev_name : string;
  dev_wires : nat;
  dev_shots : option nat
}.

(** A device executes a recorded queue with its measurement.  The world
    [W] is whatever the device reads and updates between executions (its
    random source). *)
Definition Executor (W : Type) : Type :=
  forall T : Type, Device -> list Op -> Measurement T -> SE W T.

(** [@qml.qnode(dev)]: calling the node records the quantum function on an
    empty queue and hands the recording to the device. *)
Definition qnode {W T} (execute : Executor W) (dev : Device)
  (qfunc : Queue (Measurement T)) : SE W T :=
  fun w =>
    match qfunc [] with
    | (Ok m, ops) => execute T dev ops m w
    | (Raise e, _) => (Raise e, w)
    end.

(* ================================================================== *)
(** * NumPy and built-ins used by the reporter *)
(* ================================================================== *)

(** [np.bincount(x)]: entry [v] counts the occurrences of [v] in [x]; the
    result has one entry more than the largest value of [x].  The program
    always passes its hundred samples. *)
Definition bincount (x : list nat) : list nat :=
  match x with
  | [] => []
  | _ => map (count_occ Nat.eq_dec x) (seq 0 (S (list_max x)))
  end.

(** [np.argmax(a)]: the index of the first occurrence of the largest
    entry.  [argmax_from] scans the rest of the array, holding the best
    index and value met so far. *)
Fixpoint argmax_from (a : list nat) (i best_i best_v : nat) : nat :=
  match a with
  | [] => best_i
  | v :: a' =>
      if best_v <? v then argmax_from a' (S i) i v
      else argmax_from a' (S i) best_i best_v
  end.

Definition argmax (a : list nat) : result nat :=
  match a with
  | [] => Raise "ValueError"%string
  | v :: a' => Ok (argmax_from a' 1 0 v)
  end.

(** [str(bs)] for a sampled bit. *)
Definition str_bit (bs : bool) : string := if bs then "1"%string else "0"%string.

(** ["".join(...)] *)
Definition join (parts : list string) : string :=
  fold_right String.append EmptyString parts.

(** [int(s, base=2)] on a string of binary digits. *)
Fixpoint int_base2_from (acc : nat) (s : string) : result nat :=
  match s with
  | EmptyString => Ok acc
  | String c s' =>
      if Ascii.eqb c "0"%char then int_base2_from (2 * acc) s'
      else if Ascii.eqb c "1"%char then int_base2_from (2 * acc + 1) s'
      else Raise "ValueError"%string
  end.

Definition int_base2 (s : string) : result nat :=
  match s with
  | EmptyString => Raise "ValueError"%string
  | _ => int_base2_from 0 s
  end.

(* ================================================================== *)
(** * main.py *)
(* ================================================================== *)

Module Main.

Definition bitstring_to_int (bit_string_sample : list bool) : result nat :=
  let bit_string := join (map str_bit bit_string_sample) in
  int_base2 bit_string.

(** The value of [circuit] depends on whether an edge is given. *)
Definition ret_type (edge : option (nat * nat)) : Type :=
  match edge with
  | None => list bool
  | Some _ => R
  end.

(** The module-level names [n_wires] and [graph] are read by the functions
    below; they are kept as parameters of the section and fixed to the
    values of the file after it. *)
Section Globals.

Variable n_wires : nat.
Variable graph : list (nat * nat).

Definition U_B (beta : R) : Queue unit :=
  for_ (range n_wires) (fun wire => qml_RX (2 * beta) wire).

Definition dev : Device := mkDevice "lightning.qubit" n_wires (Some 1%nat).

Definition U_C (gamma : R) : Queue unit :=
  for_ graph (fun edge =>
    let wire1 := fst edge in
    let wire2 := snd edge in
    qml_CNOT wire1 wire2 ;;
    qml_RZ gamma wire2 ;;
    qml_CNOT wire1 wire2).

(** The body of [circuit], before the [qnode] decorator. *)
Definition circuit_qfunc (gammas betas : list R) (edge : option (nat * nat))
  (n_layers : nat) : Queue (Measurement (ret_type edge)) :=
  for_ (range n_wires) (fun wire => qml_Hadamard wire) ;;
  for_ (range n_layers) (fun i =>
    gamma <- lift (index gammas i) ;;
    U_C gamma ;;
    beta <- lift (index betas i) ;;
    U_B beta) ;;
  match edge return Queue (Measurement (ret_type edge)) with
  | None => ret Sample
  | Some e =>
      let H := PauliZZ (fst e) (snd e) in
      ret (Expval H)
  end.

Section Node.

Variable W : Type.
Variable execute : Executor W.

(** [circuit], the node on [dev]. *)
Definition circuit (gammas betas : list R) (edge : option (nat * nat))
  (n_layers : nat) : SE W (ret_type edge) :=
  qnode execute dev (circuit_qfunc gammas betas edge n_layers).

(** [objective], the closure of [qaoa_maxcut] over [n_layers]. *)
Definition objective (n_layers : nat) (params : list (list R)) : SE W R :=
  gammas <- lift (index params 0) ;;
  betas <- lift (index params 1) ;;
  for_acc graph 0%R (fun neg_obj edge =>
    v <- circuit gammas betas (Some edge) n_layers ;;
    ret (neg_obj - 0.5 * (1 - v))%R).

(** The sampling loop of [qaoa_maxcut]. *)
Definition sample_bit_strings (n_layers : nat) (params : list (list R))
  (n_samples : nat) : SE W (list nat) :=
  for_acc (range n_samples) [] (fun bit_strings _ =>
    p0 <- lift (index params 0) ;;
    p1 <- lift (index params 1) ;;
    s <- circuit p0 p1 None n_layers ;;
    k <- lift (bitstring_to_int s) ;;
    ret (bit_strings ++ [k])).

End Node.

End Globals.

Arguments circuit n_wires graph {W} execute gammas betas edge n_layers.
Arguments objective n_wires graph {W} execute n_layers params.
Arguments sample_bit_strings n_wires graph {W} execute n_layers params n_samples.

Definition n_wires : nat := 4.
Definition graph : list (nat * nat) := [(0, 1); (0, 3); (1, 2); (2, 3)].

(** The reporting lines of [qaoa_maxcut]. *)
Definition most_freq_bit_string (bit_strings : list nat) : result nat :=
  let counts := bincount bit_strings in
  argmax counts.

End Main.

(* ================================================================== *)
(** * test.py *)
(* ================================================================== *)

Module Test.

(** [max(edge)] for a pair. *)
Definition max_edge (edge : nat * nat) : nat := Nat.max (fst edge) (snd edge).

(** [max(iterable)]: raises on an empty iterable. *)
Definition py_max (l : list nat) : result nat :=
  match l with
  | [] => Raise "ValueError"%string
  | x :: l' => Ok (fold_left Nat.max l' x)
  end.

(** [max(max(edge) for edge in edges) + 1] *)
Definition num_qubits (edges : list (nat * nat)) : result nat :=
  result_map (fun m => m + 1) (py_max (map max_edge edges)).

Definition qaoa_circuit (params : list R) (edges : list (nat * nat)) (p : nat)
  : Queue (list (Measurement R)) :=
  num_qubits <- lift (num_qubits edges) ;;
  for_ (range num_qubits) (fun i => qml_Hadamard i) ;;
  for_ (range p) (fun layer =>
    for_ edges (fun '(i, j) =>
      qml_CNOT i j ;;
      (x <- lift (index params layer) ;; qml_RZ (-2 * x) j) ;;
      qml_CNOT i j) ;;
    for_ (range num_qubits) (fun i =>
      x <- lift (index params (p + layer)) ;;
      qml_RX (2 * x) i)) ;;
  ret (map (fun '(i, j) => Expval (PauliZZ i j)) edges).

(** The device that [optimize_qaoa] creates. *)
Definition optimize_qaoa_dev (edges : list (nat * nat)) : result Device :=
  result_map (fun num_qubits => mkDevice "default.qubit" num_qubits None)
             (num_qubits edges).

End Test.

(* ================================================================== *)
(** * The state-vector engine behind a device *)
(* ================================================================== *)

(** The repository holds no simulator of its own: the gates are executed
    by the PennyLane device.  The engine below follows sections 4.1 to 4.3
    of the specification, with the usual matrices for the four gates.
    Amplitudes are exact complex numbers over [R]; rounding is not
    modelled. *)
Module Engine.

Local Open Scope R_scope.

Definition C : Type := (R * R)%type.
Definition C0 : C := (0, 0).
Definition C1 : C := (1, 0).
Definition Cadd (a b : C) : C := (fst a + fst b, snd a + snd b).
Definition Cmul (a b : C) : C :=
  (fst a * fst b - snd a * snd b, fst a * snd b + snd a * fst b).
(** Squared magnitude. *)
Definition Cnorm2 (a : C) : R := fst a * fst a + snd a * snd a.

(** A computational-basis state lists the bit of every wire, wire 0
    first; a state vector gives the amplitude of each basis state. *)
Definition Basis : Type := list bool.
Definition State : Type := Basis -> C.

Definition bit (w : nat) (x : Basis) : bool := nth w x false.

Fixpoint upd (w : nat) (b : bool) (x : Basis) : Basis :=
  match x, w with
  | [], _ => []
  | _ :: x', O => b :: x'
  | a :: x', S w' => a :: upd w' b x'
  end.

(** All basis states of [n] wires, in the order of the integers they
    spell (big-endian). *)
Fixpoint basis_states (n : nat) : list Basis :=
  match n with
  | O => [[]]
  | S n' => map (cons false) (basis_states n') ++ map (cons true) (basis_states n')
  end.

Definition Rsum (l : list R) : R := fold_right Rplus 0 l.

(** Modelled from the spec: the initial state [|0...0>] of section 4.3,
    whose simulator is missing from the sources: amplitude 1 on the
    all-zero basis state. *)
Definition zero_state : State :=
  fun x => if existsb (fun b => b) x then C0 else C1.

(** A 2x2 complex matrix, by its four entries. *)
Record Mat2 : Type := mkMat2 { m00 : C; m01 : C; m10 : C; m11 : C }.

(** Modelled from the spec: the Hadamard matrix of the Gate Library of
    section 4.2, missing from the sources: [1/sqrt 2 * [[1, 1], [1, -1]]]. *)
Definition hadamard_matrix : Mat2 :=
  mkMat2 (/ sqrt 2, 0) (/ sqrt 2, 0) (/ sqrt 2, 0) (- / sqrt 2, 0).

(** Modelled from the spec: RX of the Gate Library of section 4.2, missing
    from the sources: [exp (-i theta X / 2)]. *)
Definition rx_matrix (theta : R) : Mat2 :=
  mkMat2 (cos (theta / 2), 0) (0, - sin (theta / 2))
         (0, - sin (theta / 2)) (cos (theta / 2), 0).

(** Modelled from the spec: RZ of the Gate Library of section 4.2, missing
    from the sources: [exp (-i theta Z / 2)]. *)
Definition rz_matrix (theta : R) : Mat2 :=
  mkMat2 (cos (theta / 2), - sin (theta / 2)) C0
         C0 (cos (theta / 2), sin (theta / 2)).

(** Modelled from the spec: the tensor-product action of section 4.1,
    missing from the sources, for one wire: the 2x2 matrix acts on wire
    [w], the identity elsewhere. *)
Definition apply1 (u : Mat2) (w : nat) (psi : State) : State :=
  fun x =>
    let a0 := psi (upd w false x) in
    let a1 := psi (upd w true x) in
    if bit w x then Cadd (Cmul (m10 u) a0) (Cmul (m11 u) a1)
    else Cadd (Cmul (m00 u) a0) (Cmul (m01 u) a1).

(** Modelled from the spec: CNOT of the Gate Library of section 4.2,
    missing from the sources, as the permutation of the basis states that
    its 4x4 matrix is: the target bit is flipped where the control bit is
    set. *)
Definition cnot_basis (c t : nat) (x : Basis) : Basis :=
  if bit c x then upd t (negb (bit t x)) x else x.

(** Modelled from the spec: the tensor-product action of section 4.1,
    missing from the sources, for CNOT.  The permutation is its own
    inverse, so the new amplitude of [x] is the old amplitude of its
    image. *)
Definition apply_cnot (c t : nat) (psi : State) : State :=
  fun x => psi (cnot_basis c t x).

(** Modelled from the spec: [apply_gate] of section 4.1, missing from the
    sources.  A wire outside the register is a [DimensionError]; so is a
    CNOT whose control and target are not a pair of two wires. *)
Definition apply_gate (n : nat) (op : Op) (psi : State) : result State :=
  match op with
  | Hadamard w =>
      if (w <? n)%nat then Ok (apply1 hadamard_matrix w psi)
      else Raise "DimensionError"%string
  | RX theta w =>
      if (w <? n)%nat then Ok (apply1 (rx_matrix theta) w psi)
      else Raise "DimensionError"%string
  | RZ theta w =>
      if (w <? n)%nat then Ok (apply1 (rz_matrix theta) w psi)
      else Raise "DimensionError"%string
  | CNOT c t =>
      if ((c <? n)%nat && (t <? n)%nat && negb (c =? t)%nat)%bool
      then Ok (apply_cnot c t psi)
      else Raise "DimensionError"%string
  end.

(** Modelled from the spec: the gate loop of section 4.3, missing from
    the sources: the operations are applied in the order of the queue,
    and the first failure aborts the evaluation. *)
Fixpoint run (n : nat) (ops : list Op) (psi : State) : result State :=
  match ops with
  | [] => Ok psi
  | op :: ops' =>
      match apply_gate n op psi with
      | Ok psi' => run n ops' psi'
      | Raise e => Raise e
      end
  end.

(** The states the engine can be in between two gate applications. *)
Inductive reachable (n : nat) : State -> Prop :=
| reach_zero : reachable n zero_state
| reach_gate : forall psi op psi',
    reachable n psi -> apply_gate n op psi = Ok psi' -> reachable n psi'.

(** Sum of the squared magnitudes of the [2^n] amplitudes. *)
Definition norm2 (n : nat) (psi : State) : R :=
  Rsum (map (fun x => Cnorm2 (psi x)) (basis_states n)).

(** Eigenvalue of Z(x)Z on a basis state: the parity of the two bits. *)
Definition zz_sign (i j : nat) (x : Basis) : R :=
  if xorb (bit i x) (bit j x) then -1 else 1.

(** Modelled from the spec: [expectation] of section 4.1, missing from the
    sources, for the diagonal observable Z(i)(x)Z(j). *)
Definition expectation (n : nat) (psi : State) (o : Observable) : result R :=
  match o with
  | PauliZZ i j =>
      if ((i <? n)%nat && (j <? n)%nat)%bool
      then Ok (Rsum (map (fun x => zz_sign i j x * Cnorm2 (psi x)) (basis_states n)))
      else Raise "DimensionError"%string
  end.

(** Modelled from the spec: the outcome of [measure_sample] of section
    4.1, missing from the sources: the basis state whose interval of
    cumulated probability holds the draw [u]. *)
Fixpoint pick (u : R) (xs : list Basis) (psi : State) (acc : R) : Basis :=
  match xs with
  | [] => []
  | x :: xs' =>
      match xs' with
      | [] => x
      | _ =>
          let acc' := acc + Cnorm2 (psi x) in
          if Rlt_dec u acc' then x else pick u xs' psi acc'
      end
  end.

Section RandomSource.

(** The uniform random source: one draw gives a number and the next state
    of the source. *)
Variable W : Type.
Variable uniform : W -> R * W.

(** Modelled from the spec: [measure_sample] of section 4.1, missing from
    the sources: one draw from the uniform source selects the outcome. *)
Definition measure_sample (n : nat) (psi : State) : SE W Basis :=
  fun w => let (u, w') := uniform w in (Ok (pick u (basis_states n) psi 0), w').

(** Modelled from the spec: the device of section 4.3, missing from the
    sources: the queue runs on [|0...0>]; a sample consumes the random
    source, an expectation value is the exact one and consumes nothing.
    The number of shots of the device is not consulted. *)
Definition execute : Executor W :=
  fun T dev ops m =>
    match run (dev_wires dev) ops zero_state with
    | Raise e => lift (Raise e)
    | Ok psi =>
        match m in Measurement T0 return SE W T0 with
        | Sample => measure_sample (dev_wires dev) psi
        | Expval o => lift (expectation (dev_wires dev) psi o)
        end
    end.

(** The sum, over [k] shots, of the eigenvalue of Z(i)(x)Z(j) on the
    sampled basis state; each shot is one [measure_sample]. *)
Fixpoint shot_sum (k n : nat) (psi : State) (i j : nat) : SE W R :=
  match k with
  | O => ret 0
  | S k' =>
      x <- measure_sample n psi ;;
      rest <- shot_sum k' n psi i j ;;
      ret (zz_sign i j x + rest)
  end.

(** The estimate of an expectation value from [k] shots: the mean of the
    sampled eigenvalues. *)
Definition estimate (k n : nat) (psi : State) (o : Observable) : SE W R :=
  match o with
  | PauliZZ i j =>
      if ((i <? n)%nat && (j <? n)%nat)%bool
      then total <- shot_sum k n psi i j ;; ret (total / INR k)
      else lift (Raise "DimensionError"%string)
  end.

(** The device that honours its [shots] field, as PennyLane documents it
    ([shots]: how many times the circuit is evaluated, or sampled, to
    estimate expectation values; none for exact ones): with [shots = k]
    an expectation value is the estimate from [k] shots, without shots it
    is the exact value.  main.py creates its device with [shots = 1]. *)
Definition execute_shots : Executor W :=
  fun T dev ops m =>
    match run (dev_wires dev) ops zero_state with
    | Raise e => lift (Raise e)
    | Ok psi =>
        match m in Measurement T0 return SE W T0 with
        | Sample => measure_sample (dev_wires dev) psi
        | Expval o =>
            match dev_shots dev with
            | None => lift (expectation (dev_wires dev) psi o)
            | Some k => estimate k (dev_wires dev) psi o
            end
        end
    end.

End RandomSource.

Arguments measure_sample {W} uniform n psi.
Arguments execute {W} uniform T dev ops m.
Arguments shot_sum {W} uniform k n psi i j.
Arguments estimate {W} uniform k n psi o.
Arguments execute_shots {W} uniform T dev ops m.

(** A small congruential source with sixteen states, to run the engine on
    concrete inputs. *)
Definition lcg16 (s : nat) : R * nat :=
  (INR (s mod 16) / 16, ((5 * s + 3) mod 16)%nat).

End Engine.

(* ================================================================== *)
(** * The specification's own words, for comparison with the code *)
(* ================================================================== *)

Module Spec.

Local Open Scope R_scope.

(** Section 4.3, step 3: the gates of one layer. *)
Definition layer_gates (n : nat) (edges : list (nat * nat)) (angle beta2 : R)
  : list Op :=
  flat_map (fun e => [CNOT (fst e) (snd e); RZ angle (snd e); CNOT (fst e) (snd e)])
           edges
  ++ map (fun w => RX beta2 w) (seq 0 n).

(** Section 4.3, steps 2 and 3: a Hadamard on every wire, then the [p]
    layers.  [angle l] is the cost angle of layer [l], [params] the flat
    parameter vector of [2p] entries. *)
Definition gate_sequence (n : nat) (edges : list (nat * nat)) (p : nat)
  (angle : nat -> R) (params : nat -> R) : list Op :=
  map Hadamard (seq 0 n)
  ++ flat_map (fun l => layer_gates n edges (angle l) (2 * params (p + l)%nat))
              (seq 0 p).

(** Section 4.4: one expectation value per edge, each from a run of the
    circuit of its own. *)
Definition observable_evaluator {W} (expval_of : nat * nat -> SE W R)
  (edges : list (nat * nat)) : SE W (list R) :=
  for_acc edges [] (fun vs e => v <- expval_of e ;; ret (vs ++ [v])).

(** Section 4.5: the cost of a list of per-edge expectation values. *)
Definition cost (expectations : list R) : R :=
  -0.5 * Engine.Rsum (map (fun ev => 1 - ev) expectations).

(** Section 4.7: number of occurrences of a value among the samples. *)
Definition occurrences (samples : list nat) (v : nat) : nat :=
  count_occ Nat.eq_dec samples v.

(** A vertex of the edge list. *)
Definition vertex (edges : list (nat * nat)) (v : nat) : Prop :=
  exists e, In e edges /\ (fst e = v \/ snd e = v).

End Spec.

(* ================================================================== *)
(** * Vocabulary of the statements *)
(* ================================================================== *)

(** A quantum function [c] that, from any queue, raises nothing, returns
    [a] and appends exactly the operations [l]. *)
Definition emits {A} (c : Queue A) (a : A) (l : list Op) : Prop :=
  forall q, c q = (Ok a, q ++ l).

(** A computation that either returns [a] or raises [E], nothing else. *)
Definition may_raise {S A} (E : exn) (a : A) (c : SE S A) : Prop :=
  forall s, exists s', c s = (Ok a, s') \/ c s = (Raise E, s').

(** The wires of an operation lie in a register of [n] wires, and a CNOT
    has two of them. *)
Definition op_ok (n : nat) (op : Op) : bool :=
  match op with
  | Hadamard w | RX _ w | RZ _ w => w <? n
  | CNOT c t => (c <? n) && (t <? n) && negb (c =? t)
  end.

(** Every edge joins two distinct wires of a register of [n] wires. *)
Definition graph_ok (n : nat) (graph : list (nat * nat)) : bool :=
  forallb (fun e => (fst e <? n) && (snd e <? n) && negb (fst e =? snd e)) graph.

(** A 2x2 matrix that preserves the squared magnitude of every pair of
    amplitudes it acts on. *)
Definition norm_preserving (u : Engine.Mat2) : Prop :=
  forall a b : Engine.C,
    (Engine.Cnorm2 (Engine.Cadd (Engine.Cmul (Engine.m00 u) a)
                                (Engine.Cmul (Engine.m01 u) b))
     + Engine.Cnorm2 (Engine.Cadd (Engine.Cmul (Engine.m10 u) a)
                                  (Engine.Cmul (Engine.m11 u) b))
     = Engine.Cnorm2 a + Engine.Cnorm2 b)%R.

(** The 2x2 identity matrix. *)
Definition is_identity (u : Engine.Mat2) : Prop :=
  Engine.m00 u = Engine.C1 /\ Engine.m01 u = Engine.C0
  /\ Engine.m10 u = Engine.C0 /\ Engine.m11 u = Engine.C1.

(** A CNOT, or a rotation by the angle zero. *)
Definition zero_angle (op : Op) : Prop :=
  match op with
  | Hadamard _ => False
  | RX theta _ | RZ theta _ => theta = 0%R
  | CNOT _ _ => True
  end.

(** The exact expectation value of an observable after a queue, as the
    engine computes it. *)
Definition exact_expval (dev : Device) (ops : list Op) (o : Observable)
  : result R :=
  match Engine.run (dev_wires dev) ops Engine.zero_state with
  | Ok psi => Engine.expectation (dev_wires dev) psi o
  | Raise e => Raise e
  end.

(** Two state vectors with the same amplitudes on the register of [n]
    wires. *)
Definition eq_on (n : nat) (psi phi : Engine.State) : Prop :=
  forall x, length x = n -> psi x = phi x.



(** The measurement that [circuit] of main.py ends with. *)
Definition measurement_of (edge : option (nat * nat))
  : Measurement (Main.ret_type edge) :=
  match edge with
  | None => Sample
  | Some e => Expval (PauliZZ (fst e) (snd e))
  end.

(** A device whose expectation values are a function [ev] of the recorded
    queue and the observable alone, and leave the world as it was. *)
Definition analytic {W} (execute : Executor W)
  (ev : Device -> list Op -> Observable -> result R) : Prop :=
  forall dev ops o w, execute R dev ops (Expval o) w = (ev dev ops o, w).

(* ================================================================== *)
(** * The report line of [qaoa_maxcut], and further vocabulary *)
(* ================================================================== *)

(** [format(n, "b")]: the binary digits of a positive number, most
    significant first, in front of [acc]. *)
Fixpoint pos_digits (p : positive) (acc : string) : string :=
  match p with
  | xH => String "1" acc
  | xO q => pos_digits q (String "0" acc)
  | xI q => pos_digits q (String "1" acc)
  end.

Definition format_b (n : nat) : string :=
  match n with
  | O => "0"%string
  | S _ => pos_digits (Pos.of_nat n) EmptyString
  end.

Fixpoint zeros (k : nat) : string :=
  match k with
  | O => EmptyString
  | S k' => String "0" (zeros k')
  end.

(** ["{:04b}".format(n)]: the binary digits, padded with zeros on the left
    to a width of at least four. *)
Definition format_04b (n : nat) : string :=
  let digits := format_b n in
  String.append (zeros (4 - String.length digits)) digits.

(** The integer a bit sequence spells, first bit most significant. *)
Definition bits_value (bits : list bool) : nat :=
  fold_left (fun acc (b : bool) => 2 * acc + (if b then 1 else 0)) bits 0.

(** The wires an operation acts on. *)
Definition op_wires (op : Op) : list nat :=
  match op with
  | Hadamard w | RX _ w | RZ _ w => [w]
  | CNOT c t => [c; t]
  end.

(** A computation that raises [E] from every state. *)
Definition raises {S A} (E : exn) (c : SE S A) : Prop :=
  forall s, exists s', c s = (Raise E, s').

(* ================================================================== *)
(** * Loops that only record operations *)
(* ================================================================== *)

Lemma emits_enqueue (op : Op) : emits (enqueue op) tt [op].
Proof. intros q. reflexivity. Qed.

Lemma emits_ret {A} (a : A) : emits (ret a) a [].
Proof. intros q. unfold ret. now rewrite app_nil_r. Qed.

Lemma emits_bind {A B} (c : Queue A) (k : A -> Queue B) a b l1 l2 :
  emits c a l1 -> emits (k a) b l2 -> emits (bind c k) b (l1 ++ l2).
Proof.
  intros Hc Hk q. unfold bind. rewrite Hc, Hk. now rewrite app_assoc.
Qed.

Lemma emits_lift_bind {A B} (r : result A) (k : A -> Queue B) a b l :
  r = Ok a -> emits (k a) b l -> emits (bind (lift r) k) b l.
Proof.
  intros -> Hk q. unfold bind, lift. apply Hk.
Qed.

Lemma emits_for {X} (xs : list X) (body : X -> Queue unit) (f : X -> list Op) :
  (forall x, In x xs -> emits (body x) tt (f x)) ->
  emits (for_ xs body) tt (flat_map f xs).
Proof.
  unfold for_. induction xs as [|x xs IH]; intros Hb; simpl.
  - apply emits_ret.
  - apply emits_bind with (a := tt).
    + apply Hb. now left.
    + apply IH. intros y Hy. apply Hb. now right.
Qed.

Lemma flat_map_singleton {X Y} (f : X -> Y) (xs : list X) :
  flat_map (fun x => [f x]) xs = map f xs.
Proof. induction xs; simpl; congruence. Qed.

Lemma emits_for_each {X} (xs : list X) (f : X -> Op) :
  emits (for_ xs (fun x => enqueue (f x))) tt (map f xs).
Proof.
  rewrite <- flat_map_singleton. apply emits_for.
  intros x _. apply emits_enqueue.
Qed.

Lemma index_nth {A} (l : list A) (i : nat) (d : A) :
  i < length l -> index l i = Ok (nth i l d).
Proof.
  intros Hi. unfold index.
  rewrite (nth_error_nth' l d Hi). reflexivity.
Qed.

Lemma index_out_of_range {A} (l : list A) (i : nat) :
  length l <= i -> index l i = Raise "IndexError"%string.
Proof.
  intros Hi. unfold index.
  now rewrite (proj2 (nth_error_None l i) Hi).
Qed.

(** ** main.py *)

Lemma U_B_emits n_wires beta :
  emits (Main.U_B n_wires beta) tt (map (fun w => RX (2 * beta) w) (seq 0 n_wires)).
Proof. apply (emits_for_each (seq 0 n_wires) (fun w => RX (2 * beta) w)). Qed.

Lemma U_C_emits graph gamma :
  emits (Main.U_C graph gamma) tt
    (flat_map (fun e => [CNOT (fst e) (snd e); RZ gamma (snd e); CNOT (fst e) (snd e)])
              graph).
Proof.
  apply emits_for. intros e _.
  change [CNOT (fst e) (snd e); RZ gamma (snd e); CNOT (fst e) (snd e)]
    with ([CNOT (fst e) (snd e)] ++ [RZ gamma (snd e)] ++ [CNOT (fst e) (snd e)]).
  apply emits_bind with (a := tt); [apply emits_enqueue|].
  apply emits_bind with (a := tt); apply emits_enqueue.
Qed.

Lemma main_layers_emit n_wires graph gammas betas p :
  p <= length gammas -> p <= length betas ->
  emits (for_ (range p) (fun i =>
           gamma <- lift (index gammas i) ;;
           Main.U_C graph gamma ;;
           beta <- lift (index betas i) ;;
           Main.U_B n_wires beta)) tt
        (flat_map (fun l => Spec.layer_gates n_wires graph (nth l gammas 0%R)
                              (2 * nth l betas 0%R)) (seq 0 p)).
Proof.
  intros Hg Hb. apply emits_for. intros l Hl.
  apply in_seq in Hl.
  apply emits_lift_bind with (a := nth l gammas 0%R); [apply index_nth; lia|].
  unfold Spec.layer_gates.
  apply emits_bind with (a := tt); [apply U_C_emits|].
  apply emits_lift_bind with (a := nth l betas 0%R); [apply index_nth; lia|].
  apply U_B_emits.
Qed.

Lemma main_measurement_emits (edge : option (nat * nat)) :
  emits (match edge return Queue (Measurement (Main.ret_type edge)) with
         | None => ret Sample
         | Some e => let H := PauliZZ (fst e) (snd e) in ret (Expval H)
         end) (measurement_of edge) [].
Proof.
  destruct edge as [e|]; apply emits_ret.
Qed.

Lemma main_circuit_emits n_wires graph gammas betas edge p :
  p <= length gammas -> p <= length betas ->
  emits (Main.circuit_qfunc n_wires graph gammas betas edge p)
        (measurement_of edge)
        (map Hadamard (seq 0 n_wires)
         ++ flat_map (fun l => Spec.layer_gates n_wires graph (nth l gammas 0%R)
                                 (2 * nth l betas 0%R)) (seq 0 p)).
Proof.
  intros Hg Hb. unfold Main.circuit_qfunc.
  apply emits_bind with (a := tt).
  - apply (emits_for_each (seq 0 n_wires) Hadamard).
  - rewrite <- (app_nil_r (flat_map _ _)).
    apply emits_bind with (a := tt).
    + now apply main_layers_emit.
    + apply main_measurement_emits.
Qed.

(** ** test.py *)

Lemma test_layers_emit n edges params p :
  2 * p <= length params ->
  emits (for_ (range p) (fun layer =>
           for_ edges (fun '(i, j) =>
             qml_CNOT i j ;;
             (x <- lift (index params layer) ;; qml_RZ (-2 * x) j) ;;
             qml_CNOT i j) ;;
           for_ (range n) (fun i =>
             x <- lift (index params (p + layer)) ;;
             qml_RX (2 * x) i))) tt
        (flat_map (fun l => Spec.layer_gates n edges (-2 * nth l params 0%R)
                              (2 * nth (p + l) params 0%R)) (seq 0 p)).
Proof.
  intros Hp. apply emits_for. intros l Hl. apply in_seq in Hl.
  unfold Spec.layer_gates.
  apply emits_bind with (a := tt).
  - apply emits_for. intros [i j] _. cbn [fst snd].
    change [CNOT i j; RZ (-2 * nth l params 0%R) j; CNOT i j]
      with ([CNOT i j] ++ [RZ (-2 * nth l params 0%R) j] ++ [CNOT i j]).
    apply emits_bind with (a := tt); [apply emits_enqueue|].
    apply emits_bind with (a := tt); [|apply emits_enqueue].
    apply emits_lift_bind with (a := nth l params 0%R); [apply index_nth; lia|].
    apply emits_enqueue.
  - rewrite <- flat_map_singleton. apply emits_for. intros w _.
    apply emits_lift_bind with (a := nth (p + l) params 0%R);
      [apply index_nth; lia|].
    apply emits_enqueue.
Qed.

Lemma test_circuit_emits n edges params p :
  Test.num_qubits edges = Ok n -> 2 * p <= length params ->
  emits (Test.qaoa_circuit params edges p)
        (map (fun '(i, j) => Expval (PauliZZ i j)) edges)
        (Spec.gate_sequence n edges p (fun l => (-2 * nth l params 0)%R)
                            (fun k => nth k params 0%R)).
Proof.
  intros Hn Hp. unfold Test.qaoa_circuit, Spec.gate_sequence.
  apply emits_lift_bind with (a := n); [exact Hn|].
  apply emits_bind with (a := tt).
  - apply (emits_for_each (seq 0 n) Hadamard).
  - rewrite <- (app_nil_r (flat_map _ _)).
    apply emits_bind with (a := tt).
    + now apply test_layers_emit.
    + apply emits_ret.
Qed.

Lemma nth_app_plus {A} (a b : list A) (p l : nat) (d : A) :
  length a = p -> nth (p + l) (a ++ b) d = nth l b d.
Proof. intros <-. apply app_nth2_plus. Qed.

Lemma main_gate_sequence n_wires graph gammas betas p :
  length gammas = p ->
  map Hadamard (seq 0 n_wires)
  ++ flat_map (fun l => Spec.layer_gates n_wires graph (nth l gammas 0%R)
                          (2 * nth l betas 0%R)) (seq 0 p)
  = Spec.gate_sequence n_wires graph p (fun l => nth l gammas 0%R)
                       (fun k => nth k (gammas ++ betas) 0%R).
Proof.
  intros Hg. unfold Spec.gate_sequence. f_equal.
  apply flat_map_ext. intros l.
  now rewrite nth_app_plus.
Qed.

(** C3: with [p] gammas and [p] betas (main.py), or a flat vector of [2p]
    parameters (test.py), the quantum function raises nothing and records
    exactly: a Hadamard on every wire, then for each layer [l] the triple
    CNOT(i,j), RZ on wire j, CNOT(i,j) for every edge, followed by
    RX(2*params[p+l]) on every wire.  The RZ angle is [params[l]] in
    main.py and [-2*params[l]] in test.py.  Calling the node of main.py
    hands this sequence to the device. *)
Theorem C3_gate_sequence :
  forall (n_wires : nat) (graph : list (nat * nat)) (p : nat)
         (gammas betas : list R) (edge : option (nat * nat))
         (edges : list (nat * nat)) (n : nat) (params : list R),
    length gammas = p -> length betas = p ->
    Test.num_qubits edges = Ok n -> length params = 2 * p ->
    let main_ops :=
      Spec.gate_sequence n_wires graph p (fun l => nth l gammas 0%R)
                         (fun k => nth k (gammas ++ betas) 0%R) in
    Main.circuit_qfunc n_wires graph gammas betas edge p []
      = (Ok (measurement_of edge), main_ops)
    /\ (forall W (execute : Executor W) (w : W),
          Main.circuit n_wires graph execute gammas betas edge p w
          = execute _ (Main.dev n_wires) main_ops (measurement_of edge) w)
    /\ Test.qaoa_circuit params edges p []
       = (Ok (map (fun '(i, j) => Expval (PauliZZ i j)) edges),
          Spec.gate_sequence n edges p (fun l => (-2 * nth l params 0)%R)
                             (fun k => nth k params 0%R)).
Proof.
  intros n_wires graph p gammas betas edge edges n params Hg Hb Hn Hp main_ops.
  assert (Hmain : Main.circuit_qfunc n_wires graph gammas betas edge p []
                  = (Ok (measurement_of edge), main_ops)).
  { rewrite (@main_circuit_emits n_wires graph gammas betas edge p) by lia.
    simpl. unfold main_ops. now rewrite main_gate_sequence. }
  split; [exact Hmain|]. split.
  - intros W execute w. unfold Main.circuit, qnode. now rewrite Hmain.
  - rewrite (@test_circuit_emits n edges params p Hn) by lia. reflexivity.
Qed.

Lemma C3_gate_sequence_witness :
  Main.circuit_qfunc Main.n_wires Main.graph [0%R] [0%R] None 1 []
  = (Ok Sample,
     [Hadamard 0; Hadamard 1; Hadamard 2; Hadamard 3;
      CNOT 0 1; RZ (nth 0 [0%R] 0%R) 1; CNOT 0 1;
      CNOT 0 3; RZ (nth 0 [0%R] 0%R) 3; CNOT 0 3;
      CNOT 1 2; RZ (nth 0 [0%R] 0%R) 2; CNOT 1 2;
      CNOT 2 3; RZ (nth 0 [0%R] 0%R) 3; CNOT 2 3;
      RX (2 * nth 1 [0%R; 0%R] 0%R) 0; RX (2 * nth 1 [0%R; 0%R] 0%R) 1;
      RX (2 * nth 1 [0%R; 0%R] 0%R) 2; RX (2 * nth 1 [0%R; 0%R] 0%R) 3]).
Proof.
  apply (C3_gate_sequence Main.n_wires Main.graph 1 [0%R] [0%R] None
           Main.graph 4 [0%R; 0%R]); reflexivity.
Defined.

(* ================================================================== *)
(** * The two variants of the circuit *)
(* ================================================================== *)

Lemma flat_map_ext_in {X Y} (f g : X -> list Y) (xs : list X) :
  (forall x, In x xs -> f x = g x) -> flat_map f xs = flat_map g xs.
Proof.
  induction xs as [|x xs IH]; intros H; simpl; [reflexivity|].
  rewrite (H x) by now left.
  rewrite IH; [reflexivity|]. intros y Hy. apply H. now right.
Qed.

Lemma reparam_nth (gammas betas : list R) (l : nat) :
  l < length gammas ->
  (-2 * nth l (map (fun g => - g / 2) gammas ++ betas) 0 = nth l gammas 0)%R.
Proof.
  intros Hl.
  rewrite app_nth1 by now rewrite length_map.
  rewrite (nth_indep _ 0%R (- 0 / 2)%R) by now rewrite length_map.
  pose proof (map_nth (fun g => (- g / 2)%R) gammas 0%R l) as E.
  cbv beta in E. rewrite E. field.
Qed.

Lemma reparam_gate_sequence n graph p (gammas betas : list R) :
  length gammas = p ->
  Spec.gate_sequence n graph p (fun l => nth l gammas 0%R)
                     (fun k => nth k (gammas ++ betas) 0%R)
  = Spec.gate_sequence n graph p
      (fun l => (-2 * nth l (map (fun g => - g / 2) gammas ++ betas) 0)%R)
      (fun k => nth k (map (fun g => (- g / 2)%R) gammas ++ betas) 0%R).
Proof.
  intros Hg. unfold Spec.gate_sequence. f_equal.
  apply flat_map_ext_in. intros l Hl. apply in_seq in Hl.
  rewrite reparam_nth by lia.
  rewrite !nth_app_plus; [reflexivity | now rewrite length_map | exact Hg].
Qed.

(** C9: on a graph whose largest vertex is the last of the [n_wires]
    wires, the cost block [U_C g] of main.py records the same operations
    as the cost block of test.py run with [g' = -g/2]; with every gamma
    replaced so and the betas unchanged, the two quantum functions record
    the same queue, and the engine reaches the same state on both. *)
Theorem C9_variants_agree :
  forall (n_wires : nat) (graph : list (nat * nat)) (p : nat)
         (gammas betas : list R) (edge : option (nat * nat)),
    Test.num_qubits graph = Ok n_wires ->
    length gammas = p -> length betas = p ->
    let params' := map (fun g => (- g / 2)%R) gammas ++ betas in
    (forall (g : R) (q : list Op),
        Main.U_C graph g q
        = for_ graph (fun '(i, j) =>
            qml_CNOT i j ;;
            (x <- lift (index [(- g / 2)%R] 0) ;; qml_RZ (-2 * x) j) ;;
            qml_CNOT i j) q)
    /\ snd (Main.circuit_qfunc n_wires graph gammas betas edge p [])
       = snd (Test.qaoa_circuit params' graph p [])
    /\ Engine.run n_wires
         (snd (Main.circuit_qfunc n_wires graph gammas betas edge p []))
         Engine.zero_state
       = Engine.run n_wires (snd (Test.qaoa_circuit params' graph p []))
                    Engine.zero_state.
Proof.
  intros n_wires graph p gammas betas edge Hn Hg Hb params'.
  assert (Hq : snd (Main.circuit_qfunc n_wires graph gammas betas edge p [])
               = snd (Test.qaoa_circuit params' graph p [])).
  { rewrite (@main_circuit_emits n_wires graph gammas betas edge p) by lia.
    rewrite (@test_circuit_emits n_wires graph params' p Hn)
      by (unfold params'; rewrite length_app, length_map; lia).
    cbn [snd app]. rewrite main_gate_sequence by exact Hg.
    now apply reparam_gate_sequence. }
  split; [|split; [exact Hq | now rewrite Hq]].
  intros g q. rewrite U_C_emits. symmetry.
  apply (@emits_for _ graph _
           (fun e => [CNOT (fst e) (snd e); RZ g (snd e); CNOT (fst e) (snd e)])).
  intros [i j] _. cbn [fst snd].
  change [CNOT i j; RZ g j; CNOT i j] with ([CNOT i j] ++ [RZ g j] ++ [CNOT i j]).
  apply emits_bind with (a := tt); [apply emits_enqueue|].
  apply emits_bind with (a := tt); [|apply emits_enqueue].
  apply emits_lift_bind with (a := (- g / 2)%R); [reflexivity|].
  replace g with (-2 * (- g / 2))%R at 2 by field.
  apply emits_enqueue.
Qed.

Lemma C9_variants_agree_witness :
  snd (Main.circuit_qfunc Main.n_wires Main.graph [1%R] [2%R] None 1 [])
  = snd (Test.qaoa_circuit (map (fun g => (- g / 2)%R) [1%R] ++ [2%R])
                           Main.graph 1 []).
Proof.
  apply (C9_variants_agree Main.n_wires Main.graph 1 [1%R] [2%R] None);
    reflexivity.
Defined.

(* ================================================================== *)
(** * The register size of test.py *)
(* ================================================================== *)

Lemma fold_left_max_ge (l : list nat) (x : nat) :
  x <= fold_left Nat.max l x /\ Forall (fun y => y <= fold_left Nat.max l x) l.
Proof.
  revert x. induction l as [|y l IH]; intros x; simpl.
  - split; [lia | constructor].
  - destruct (IH (Nat.max x y)) as [H1 H2]. split; [lia|].
    constructor; [lia | exact H2].
Qed.

Lemma fold_left_max_in (l : list nat) (x : nat) :
  fold_left Nat.max l x = x \/ In (fold_left Nat.max l x) l.
Proof.
  revert x. induction l as [|y l IH]; intros x; simpl; [now left|].
  destruct (IH (Nat.max x y)) as [H|H]; [|now right; right].
  rewrite H. destruct (Nat.max_spec x y) as [[_ E]|[_ E]]; rewrite E; auto.
Qed.

Lemma py_max_spec (l : list nat) :
  l <> [] ->
  exists m, Test.py_max l = Ok m /\ In m l /\ Forall (fun y => y <= m) l.
Proof.
  destruct l as [|x l]; [congruence|]. intros _.
  exists (fold_left Nat.max l x). simpl. split; [reflexivity|].
  destruct (fold_left_max_ge l x) as [H1 H2]. split.
  - destruct (fold_left_max_in l x) as [H|H]; [left; now rewrite H | now right].
  - now constructor.
Qed.

Lemma num_qubits_spec (edges : list (nat * nat)) :
  edges <> [] ->
  exists m, Test.num_qubits edges = Ok (m + 1)
            /\ Spec.vertex edges m
            /\ (forall v, Spec.vertex edges v -> v <= m).
Proof.
  intros Hne.
  destruct (py_max_spec (map Test.max_edge edges)) as (m & Hm & Hin & Hle).
  { destruct edges; [congruence | discriminate]. }
  exists m. unfold Test.num_qubits. rewrite Hm. split; [reflexivity|]. split.
  - apply in_map_iff in Hin. destruct Hin as (e & He & Hine).
    exists e. split; [exact Hine|]. unfold Test.max_edge in He. lia.
  - intros v (e & Hine & Hv).
    rewrite Forall_forall in Hle.
    specialize (Hle (Test.max_edge e) (in_map _ _ _ Hine)).
    unfold Test.max_edge in Hle. lia.
Qed.

(** C10: for a non-empty list of edges, [num_qubits] of test.py is one
    plus the largest vertex of the list; the device of [optimize_qaoa] has
    that many wires, and the Hadamard and RX layers that [qaoa_circuit]
    records range over that many wires. *)
Theorem C10_register_size :
  forall edges : list (nat * nat),
    edges <> [] ->
    exists m : nat,
      Spec.vertex edges m
      /\ (forall v, Spec.vertex edges v -> v <= m)
      /\ Test.num_qubits edges = Ok (m + 1)
      /\ Test.optimize_qaoa_dev edges = Ok (mkDevice "default.qubit" (m + 1) None)
      /\ (forall (params : list R) (p : nat),
             length params = 2 * p ->
             snd (Test.qaoa_circuit params edges p [])
             = Spec.gate_sequence (m + 1) edges p
                 (fun l => (-2 * nth l params 0)%R) (fun k => nth k params 0%R)).
Proof.
  intros edges Hne.
  destruct (num_qubits_spec edges Hne) as (m & Hn & Hv & Hmax).
  exists m. repeat split; try assumption.
  - unfold Test.optimize_qaoa_dev. now rewrite Hn.
  - intros params p Hp.
    rewrite (@test_circuit_emits (m + 1) edges params p Hn) by lia.
    reflexivity.
Qed.

Lemma C10_register_size_witness :
  exists m : nat,
    Spec.vertex [(0, 1); (1, 2); (2, 3); (3, 0); (0, 2)] m
    /\ (forall v, Spec.vertex [(0, 1); (1, 2); (2, 3); (3, 0); (0, 2)] v -> v <= m)
    /\ Test.num_qubits [(0, 1); (1, 2); (2, 3); (3, 0); (0, 2)] = Ok (m + 1)
    /\ Test.optimize_qaoa_dev [(0, 1); (1, 2); (2, 3); (3, 0); (0, 2)]
       = Ok (mkDevice "default.qubit" (m + 1) None)
    /\ (forall (params : list R) (p : nat),
           length params = 2 * p ->
           snd (Test.qaoa_circuit params [(0, 1); (1, 2); (2, 3); (3, 0); (0, 2)] p [])
           = Spec.gate_sequence (m + 1) [(0, 1); (1, 2); (2, 3); (3, 0); (0, 2)] p
               (fun l => (-2 * nth l params 0)%R) (fun k => nth k params 0%R)).
Proof.
  apply (C10_register_size [(0, 1); (1, 2); (2, 3); (3, 0); (0, 2)]).
  discriminate.
Defined.

(* ================================================================== *)
(** * The reporter: the most frequent sample *)
(* ================================================================== *)

Lemma argmax_from_spec (l : list nat) :
  forall (a : list nat) (i best_i best_v : nat),
    i + length a = length l ->
    (forall k, k < length a -> nth (i + k) l 0 = nth k a 0) ->
    best_i < i ->
    nth best_i l 0 = best_v ->
    (forall k, k < i -> nth k l 0 <= best_v) ->
    (forall k, k < best_i -> nth k l 0 < best_v) ->
    let r := argmax_from a i best_i best_v in
    r < length l
    /\ (forall k, k < length l -> nth k l 0 <= nth r l 0)
    /\ (forall k, k < r -> nth k l 0 < nth r l 0).
Proof.
  induction a as [|v a IH]; intros i bi bv Hlen Hnth Hbi Hbv Hle Hlt; simpl.
  - simpl in Hlen. rewrite Nat.add_0_r in Hlen. subst i.
    rewrite Hbv. repeat split; [lia | exact Hle | exact Hlt].
  - simpl in Hlen.
    assert (Hv : nth i l 0 = v).
    { rewrite <- (Nat.add_0_r i) at 1. rewrite Hnth by (simpl; lia). reflexivity. }
    assert (Hshift : forall k, k < length a -> nth (S i + k) l 0 = nth k a 0).
    { intros k Hk. replace (S i + k) with (i + S k) by lia.
      rewrite Hnth by (simpl; lia). reflexivity. }
    destruct (Nat.ltb_spec bv v) as [Hcmp|Hcmp].
    + apply IH; try assumption; try lia.
      * intros k Hk. destruct (Nat.eq_dec k i) as [->|Hki]; [lia|].
        specialize (Hle k ltac:(lia)). lia.
      * intros k Hk. specialize (Hle k Hk). lia.
    + apply IH; try assumption; try lia.
      intros k Hk. destruct (Nat.eq_dec k i) as [->|Hki]; [lia|].
      apply Hle. lia.
Qed.

Lemma argmax_spec (l : list nat) :
  l <> [] ->
  exists r, argmax l = Ok r
            /\ r < length l
            /\ (forall k, k < length l -> nth k l 0 <= nth r l 0)
            /\ (forall k, k < r -> nth k l 0 < nth r l 0).
Proof.
  destruct l as [|v a]; [congruence|]. intros _.
  exists (argmax_from a 1 0 v). split; [reflexivity|].
  apply (@argmax_from_spec (v :: a) a 1 0 v); simpl; try lia; try reflexivity.
  intros k Hk. replace k with 0 by lia. simpl. lia.
Qed.

Lemma bincount_length (x : list nat) :
  x <> [] -> length (bincount x) = S (list_max x).
Proof.
  destruct x as [|a x]; [congruence|]. intros _.
  unfold bincount. now rewrite length_map, length_seq.
Qed.

Lemma bincount_nth (x : list nat) (v : nat) :
  x <> [] -> v <= list_max x ->
  nth v (bincount x) 0 = Spec.occurrences x v.
Proof.
  destruct x as [|a x]; [congruence|]. intros _ Hv.
  unfold bincount, Spec.occurrences.
  rewrite (nth_indep _ 0 (count_occ Nat.eq_dec (a :: x) 0))
    by (rewrite length_map, length_seq; lia).
  rewrite (map_nth (count_occ Nat.eq_dec (a :: x))).
  rewrite seq_nth by lia. reflexivity.
Qed.

Lemma occurrences_above_max (x : list nat) (v : nat) :
  list_max x < v -> Spec.occurrences x v = 0.
Proof.
  intros Hv. unfold Spec.occurrences. apply count_occ_not_In. intros Hin.
  pose proof (proj1 (list_max_le x (list_max x)) (Nat.le_refl _)) as Hall.
  rewrite Forall_forall in Hall. specialize (Hall v Hin). lia.
Qed.

(** C4: on a non-empty list of sampled integers the reporter returns a
    sampled value whose number of occurrences is the largest, and every
    other value with as many occurrences is larger: ties go to the
    smallest integer. *)
Theorem C4_most_frequent :
  forall bit_strings : list nat,
    bit_strings <> [] ->
    exists m : nat,
      Main.most_freq_bit_string bit_strings = Ok m
      /\ In m bit_strings
      /\ (forall v, Spec.occurrences bit_strings v <= Spec.occurrences bit_strings m)
      /\ (forall v, Spec.occurrences bit_strings v = Spec.occurrences bit_strings m ->
                    m <= v).
Proof.
  intros xs Hne.
  assert (Hcne : bincount xs <> []).
  { intros E. apply (f_equal (@length nat)) in E.
    rewrite bincount_length in E by exact Hne. discriminate. }
  destruct (argmax_spec (bincount xs) Hcne) as (m & Hm & Hlt & Hmax & Hfirst).
  rewrite bincount_length in Hlt, Hmax by exact Hne.
  assert (Hcount : forall v, v <= list_max xs ->
                             nth v (bincount xs) 0 = Spec.occurrences xs v).
  { intros v Hv. now apply bincount_nth. }
  assert (Hall : forall v, Spec.occurrences xs v <= Spec.occurrences xs m).
  { intros v. destruct (Nat.le_gt_cases v (list_max xs)) as [Hv|Hv].
    - rewrite <- !Hcount by lia. apply Hmax. lia.
    - rewrite occurrences_above_max by exact Hv. lia. }
  exists m. split; [exact Hm|]. split; [|split; [exact Hall|]].
  - destruct xs as [|a xs]; [congruence|].
    apply (count_occ_In Nat.eq_dec).
    specialize (Hall a). unfold Spec.occurrences in Hall.
    assert (count_occ Nat.eq_dec (a :: xs) a > 0)
      by (apply count_occ_In; now left).
    lia.
  - intros v Hv. destruct (Nat.le_gt_cases m v) as [|Hvm]; [assumption|].
    specialize (Hfirst v Hvm).
    rewrite !Hcount in Hfirst by lia. lia.
Qed.

Lemma C4_most_frequent_witness :
  exists m : nat,
    Main.most_freq_bit_string [5; 10; 10; 5; 3] = Ok m
    /\ In m [5; 10; 10; 5; 3]
    /\ (forall v, Spec.occurrences [5; 10; 10; 5; 3] v
                  <= Spec.occurrences [5; 10; 10; 5; 3] m)
    /\ (forall v, Spec.occurrences [5; 10; 10; 5; 3] v
                  = Spec.occurrences [5; 10; 10; 5; 3] m -> m <= v).
Proof.
  apply (C4_most_frequent [5; 10; 10; 5; 3]). discriminate.
Defined.

Example most_freq_tie : Main.most_freq_bit_string [5; 10; 10; 5; 3] = Ok 5.
Proof. reflexivity. Qed.

Example bitstring_0101 :
  Main.bitstring_to_int [false; true; false; true] = Ok 5.
Proof. reflexivity. Qed.

(* ================================================================== *)
(** * The objective of main.py *)
(* ================================================================== *)

Lemma Rsum_app (l1 l2 : list R) :
  Engine.Rsum (l1 ++ l2) = (Engine.Rsum l1 + Engine.Rsum l2)%R.
Proof.
  unfold Engine.Rsum. induction l1 as [|a l1 IH]; simpl; [lra|].
  rewrite IH. lra.
Qed.

Lemma cost_snoc (vs : list R) (v : R) :
  Spec.cost (vs ++ [v]) = (Spec.cost vs - 0.5 * (1 - v))%R.
Proof.
  unfold Spec.cost. rewrite map_app, Rsum_app. simpl. lra.
Qed.

Lemma objective_loop {W} (expval_of : nat * nat -> SE W R)
  (edges : list (nat * nat)) :
  forall (vs : list R) (w : W),
    for_acc edges (Spec.cost vs)
            (fun neg_obj edge =>
               v <- expval_of edge ;; ret (neg_obj - 0.5 * (1 - v))%R) w
    = (vs' <- for_acc edges vs (fun vs e => v <- expval_of e ;; ret (vs ++ [v])) ;;
       ret (Spec.cost vs')) w.
Proof.
  induction edges as [|e edges IH]; intros vs w; simpl.
  - reflexivity.
  - unfold bind, ret in *.
    destruct (expval_of e w) as [[v|err] w1]; [|reflexivity].
    rewrite <- cost_snoc. apply IH.
Qed.

Lemma for_acc_pure {W X A} (xs : list X) (body : A -> X -> SE W A) :
  (forall acc x, In x xs -> exists r, forall w, body acc x w = (r, w)) ->
  forall acc, exists r, forall w, for_acc xs acc body w = (r, w).
Proof.
  induction xs as [|x xs IH]; intros Hb acc; simpl.
  - exists (Ok acc). reflexivity.
  - destruct (Hb acc x (or_introl eq_refl)) as [[a|e] Hr].
    + destruct (IH (fun acc x Hx => Hb acc x (or_intror Hx)) a) as [r Hr'].
      exists r. intros w. unfold bind. rewrite Hr. apply Hr'.
    + exists (Raise e). intros w. unfold bind. now rewrite Hr.
Qed.


Lemma evaluator_loop_exact {W} (expval_of : nat * nat -> SE W R)
  (E : nat * nat -> R) (edges : list (nat * nat)) :
  (forall e w, In e edges -> expval_of e w = (Ok (E e), w)) ->
  forall (vs : list R) (w : W),
    for_acc edges vs (fun vs e => v <- expval_of e ;; ret (vs ++ [v])) w
    = (Ok (vs ++ map E edges), w).
Proof.
  induction edges as [|e edges IH]; intros HE vs w; simpl.
  - now rewrite app_nil_r.
  - unfold bind at 1 2. rewrite HE by now left. unfold ret at 1.
    rewrite IH by (intros; apply HE; now right).
    now rewrite <- app_assoc.
Qed.

(** C1: with [gammas = params[0]] and [betas = params[1]], the objective
    runs the circuit once per edge, in the order of the graph, and returns
    [-0.5 * sum (1 - v)] over the values [v] the circuit returned; it
    raises what the first failing run raises.  When the run for edge [e]
    returns the expectation value [E e], the cost is
    [-0.5 * sum over the edges of (1 - E e)]. *)
Theorem C1_objective_cost :
  forall (n_wires : nat) (graph : list (nat * nat)) (W : Type)
         (execute : Executor W) (n_layers : nat) (params : list (list R))
         (gammas betas : list R) (w : W),
    index params 0 = Ok gammas ->
    index params 1 = Ok betas ->
    let expectation : nat * nat -> SE W R :=
      fun edge => Main.circuit n_wires graph execute gammas betas (Some edge) n_layers in
    Main.objective n_wires graph execute n_layers params w
    = (vs <- Spec.observable_evaluator expectation graph ;; ret (Spec.cost vs)) w
    /\ (forall E : nat * nat -> R,
           (forall e w', In e graph -> expectation e w' = (Ok (E e), w')) ->
           Main.objective n_wires graph execute n_layers params w
           = (Ok (-0.5 * Engine.Rsum (map (fun e => 1 - E e) graph))%R, w)).
Proof.
  intros n_wires graph W execute n_layers params gammas betas w Hg Hb expectation.
  assert (Hobj : Main.objective n_wires graph execute n_layers params w
                 = (vs <- Spec.observable_evaluator expectation graph ;;
                    ret (Spec.cost vs)) w).
  { unfold Main.objective, Spec.observable_evaluator.
    unfold bind at 1, lift at 1. rewrite Hg.
    unfold bind at 1, lift at 1. rewrite Hb.
    replace 0%R with (Spec.cost []) by (unfold Spec.cost; simpl; lra).
    apply (objective_loop expectation). }
  split; [exact Hobj|].
  intros E HE. rewrite Hobj. unfold Spec.observable_evaluator.
  unfold bind at 1. rewrite (evaluator_loop_exact expectation E graph HE).
  unfold ret, Spec.cost. simpl. now rewrite map_map.
Qed.

(* ================================================================== *)
(** * What the quantum function of main.py can raise *)
(* ================================================================== *)

Lemma may_raise_emits {A} (E : exn) (c : Queue A) (a : A) (l : list Op) :
  emits c a l -> may_raise E a c.
Proof. intros Hc s. exists (s ++ l). left. apply Hc. Qed.

Lemma may_raise_bind {S A B} (E : exn) (c : SE S A) (k : A -> SE S B) a b :
  may_raise E a c -> may_raise E b (k a) -> may_raise E b (bind c k).
Proof.
  intros Hc Hk s. unfold bind.
  destruct (Hc s) as [s1 [H|H]]; rewrite H.
  - apply Hk.
  - exists s1. now right.
Qed.

Lemma may_raise_index {S A B} (l : list A) (i : nat) (k : A -> SE S B) b :
  (forall a, may_raise "IndexError"%string b (k a)) ->
  may_raise "IndexError"%string b (bind (lift (index l i)) k).
Proof.
  intros Hk s. unfold bind, lift, index.
  destruct (nth_error l i) as [a|].
  - apply Hk.
  - exists s. now right.
Qed.

Lemma may_raise_for {S X} (E : exn) (xs : list X) (body : X -> SE S unit) :
  (forall x, may_raise E tt (body x)) -> may_raise E tt (for_ xs body).
Proof.
  intros Hb. unfold for_. induction xs as [|x xs IH]; simpl.
  - intros s. exists s. now left.
  - apply may_raise_bind with (a := tt); [apply Hb | exact IH].
Qed.

Lemma circuit_qfunc_may_raise n_wires graph gammas betas edge n_layers :
  may_raise "IndexError"%string (measurement_of edge)
            (Main.circuit_qfunc n_wires graph gammas betas edge n_layers).
Proof.
  unfold Main.circuit_qfunc.
  apply may_raise_bind with (a := tt).
  { eapply may_raise_emits. apply (emits_for_each (seq 0 n_wires) Hadamard). }
  apply may_raise_bind with (a := tt).
  - apply may_raise_for. intros i.
    apply may_raise_index. intros gamma.
    apply may_raise_bind with (a := tt).
    { eapply may_raise_emits. apply U_C_emits. }
    apply may_raise_index. intros beta.
    eapply may_raise_emits. apply U_B_emits.
  - eapply may_raise_emits. apply main_measurement_emits.
Qed.

(** On a device with exact expectation values, a run of the circuit for
    an edge is a function of its arguments: the world is neither read nor
    changed. *)
Lemma circuit_expval_pure n_wires graph {W} (execute : Executor W) ev
  gammas betas (e : nat * nat) n_layers :
  analytic execute ev ->
  exists r, forall w,
    Main.circuit n_wires graph execute gammas betas (Some e) n_layers w = (r, w).
Proof.
  intros Han. unfold Main.circuit, qnode.
  destruct (circuit_qfunc_may_raise n_wires graph gammas betas (Some e) n_layers [])
    as [ops [H|H]]; rewrite H.
  - exists (ev (Main.dev n_wires) ops (PauliZZ (fst e) (snd e))).
    intros w. apply Han.
  - exists (Raise "IndexError"%string). reflexivity.
Qed.

Lemma objective_pure n_wires graph {W} (execute : Executor W) ev n_layers params :
  analytic execute ev ->
  exists r, forall w, Main.objective n_wires graph execute n_layers params w = (r, w).
Proof.
  intros Han. unfold Main.objective.
  unfold bind at 1, lift at 1.
  destruct (index params 0) as [gammas|err]; [|now exists (Raise err)].
  unfold bind at 1, lift at 1.
  destruct (index params 1) as [betas|err]; [|now exists (Raise err)].
  apply for_acc_pure. intros acc e _.
  destruct (circuit_expval_pure n_wires graph execute ev gammas betas e n_layers Han)
    as [[v|err] Hr].
  - exists (Ok (acc - 0.5 * (1 - v))%R). intros w. unfold bind. now rewrite Hr.
  - exists (Raise err). intros w. unfold bind. now rewrite Hr.
Qed.

(** C7, amended: on a device whose expectation values are exact (a
    function of the recorded queue and the observable, which leaves the
    device as it was), two evaluations of the objective on the same
    parameters return the same cost, or raise the same exception,
    whatever the state of the device's random source at the two calls,
    and an evaluation leaves that state as it found it. *)
Theorem C7_objective_deterministic :
  forall (n_wires : nat) (graph : list (nat * nat)) (W : Type)
         (execute : Executor W)
         (ev : Device -> list Op -> Observable -> result R),
    analytic execute ev ->
    forall (n_layers : nat) (params : list (list R)) (w1 w2 : W),
      fst (Main.objective n_wires graph execute n_layers params w1)
      = fst (Main.objective n_wires graph execute n_layers params w2)
      /\ snd (Main.objective n_wires graph execute n_layers params w1) = w1
      /\ fst (Main.objective n_wires graph execute n_layers params
                (snd (Main.objective n_wires graph execute n_layers params w1)))
         = fst (Main.objective n_wires graph execute n_layers params w1).
Proof.
  intros n_wires graph W execute ev Han n_layers params w1 w2.
  destruct (objective_pure n_wires graph execute ev n_layers params Han) as [r Hr].
  rewrite !Hr. simpl. auto.
Qed.

(* ================================================================== *)
(** * The engine preserves the norm *)
(* ================================================================== *)

Section Norm.

Import Engine.
Local Open Scope R_scope.

Lemma Rsum_map_ext {X} (f g : X -> R) (l : list X) :
  (forall x, In x l -> f x = g x) -> Rsum (map f l) = Rsum (map g l).
Proof.
  intros H. f_equal. apply map_ext_in. exact H.
Qed.

Lemma Rsum_map_plus {X} (f g : X -> R) (l : list X) :
  Rsum (map (fun x => f x + g x) l) = Rsum (map f l) + Rsum (map g l).
Proof.
  unfold Rsum. induction l as [|x l IH]; simpl; [lra|]. rewrite IH. lra.
Qed.

Lemma Rsum_basis_S (n : nat) (F : Basis -> R) :
  Rsum (map F (basis_states (S n)))
  = Rsum (map (fun x => F (false :: x) + F (true :: x)) (basis_states n)).
Proof.
  simpl. rewrite map_app, Rsum_app, !map_map.
  now rewrite (Rsum_map_plus (fun x => F (false :: x)) (fun x => F (true :: x))).
Qed.

Lemma basis_states_length (n : nat) (x : Basis) :
  In x (basis_states n) -> length x = n.
Proof.
  revert x. induction n as [|n IH]; intros x Hx; simpl in Hx.
  - destruct Hx as [<-|[]]. reflexivity.
  - apply in_app_or in Hx.
    destruct Hx as [Hx|Hx]; apply in_map_iff in Hx;
      destruct Hx as (y & <- & Hy); simpl; f_equal; now apply IH.
Qed.

Lemma norm2_S (n : nat) (psi : State) :
  norm2 (S n) psi
  = norm2 n (fun x => psi (false :: x)) + norm2 n (fun x => psi (true :: x)).
Proof.
  unfold norm2. rewrite (Rsum_basis_S n (fun x => Cnorm2 (psi x))).
  apply Rsum_map_plus.
Qed.

Lemma norm2_ext (n : nat) (psi phi : State) :
  eq_on n psi phi -> norm2 n psi = norm2 n phi.
Proof.
  intros H. unfold norm2. apply Rsum_map_ext.
  intros x Hx. now rewrite (H x (basis_states_length n x Hx)).
Qed.

Lemma norm2_zero_state (n : nat) : norm2 n zero_state = 1.
Proof.
  induction n as [|n IH].
  - unfold norm2, zero_state, Cnorm2, C1. simpl. lra.
  - rewrite norm2_S.
    rewrite (norm2_ext n (fun x => zero_state (false :: x)) zero_state)
      by (intros x _; reflexivity).
    rewrite IH.
    assert (Hz : norm2 n (fun x => zero_state (true :: x)) = 0).
    { unfold norm2, zero_state. simpl.
      generalize (basis_states n). intros l.
      induction l as [|x l IHl]; simpl; [reflexivity|].
      rewrite IHl. unfold Cnorm2, C0. simpl. lra. }
    rewrite Hz. lra.
Qed.

(** ** A gate on one wire *)

Lemma apply1_norm (u : Mat2) :
  norm_preserving u ->
  forall (n w : nat) (psi : State),
    (w < n)%nat -> norm2 n (apply1 u w psi) = norm2 n psi.
Proof.
  intros Hu. induction n as [|n IH]; intros w psi Hw; [lia|].
  unfold norm2. rewrite !Rsum_basis_S.
  destruct w as [|w].
  - apply Rsum_map_ext. intros x _.
    unfold apply1. simpl. apply Hu.
  - rewrite !Rsum_map_plus.
    assert (Hb : forall b,
               Rsum (map (fun x => Cnorm2 (apply1 u (S w) psi (b :: x)))
                         (basis_states n))
               = Rsum (map (fun x => Cnorm2 (psi (b :: x))) (basis_states n))).
    { intros b.
      apply (IH w (fun y => psi (b :: y))). lia. }
    now rewrite !Hb.
Qed.

Lemma hadamard_norm_preserving : norm_preserving hadamard_matrix.
Proof.
  intros [a1 a2] [b1 b2]. unfold hadamard_matrix, Cnorm2, Cadd, Cmul. simpl.
  assert (Hs : / sqrt 2 * / sqrt 2 = / 2).
  { rewrite <- Rinv_mult. now rewrite sqrt_sqrt by lra. }
  generalize dependent (/ sqrt 2). intros s Hs.
  replace ((s * a1 - 0 * a2 + (s * b1 - 0 * b2)) *
           (s * a1 - 0 * a2 + (s * b1 - 0 * b2)) +
           (s * a2 + 0 * a1 + (s * b2 + 0 * b1)) *
           (s * a2 + 0 * a1 + (s * b2 + 0 * b1)) +
           ((s * a1 - 0 * a2 + (- s * b1 - 0 * b2)) *
            (s * a1 - 0 * a2 + (- s * b1 - 0 * b2)) +
            (s * a2 + 0 * a1 + (- s * b2 + 0 * b1)) *
            (s * a2 + 0 * a1 + (- s * b2 + 0 * b1))))
    with (2 * (s * s) * (a1 * a1 + a2 * a2 + b1 * b1 + b2 * b2)) by ring.
  rewrite Hs. field.
Qed.

Lemma rx_norm_preserving (theta : R) : norm_preserving (rx_matrix theta).
Proof.
  intros [a1 a2] [b1 b2]. unfold rx_matrix, Cnorm2, Cadd, Cmul. simpl.
  pose proof (sin2_cos2 (theta / 2)) as Ht. unfold Rsqr in Ht.
  generalize dependent (sin (theta / 2)). intros s.
  generalize (cos (theta / 2)). intros c Ht.
  replace ((c * a1 - 0 * a2 + (0 * b1 - - s * b2)) *
           (c * a1 - 0 * a2 + (0 * b1 - - s * b2)) +
           (c * a2 + 0 * a1 + (0 * b2 + - s * b1)) *
           (c * a2 + 0 * a1 + (0 * b2 + - s * b1)) +
           ((0 * a1 - - s * a2 + (c * b1 - 0 * b2)) *
            (0 * a1 - - s * a2 + (c * b1 - 0 * b2)) +
            (0 * a2 + - s * a1 + (c * b2 + 0 * b1)) *
            (0 * a2 + - s * a1 + (c * b2 + 0 * b1))))
    with ((s * s + c * c) * (a1 * a1 + a2 * a2 + b1 * b1 + b2 * b2)) by ring.
  rewrite Ht. ring.
Qed.

Lemma rz_norm_preserving (theta : R) : norm_preserving (rz_matrix theta).
Proof.
  intros [a1 a2] [b1 b2]. unfold rz_matrix, Cnorm2, Cadd, Cmul, C0. simpl.
  pose proof (sin2_cos2 (theta / 2)) as Ht. unfold Rsqr in Ht.
  generalize dependent (sin (theta / 2)). intros s.
  generalize (cos (theta / 2)). intros c Ht.
  replace ((c * a1 - - s * a2 + (0 * b1 - 0 * b2)) *
           (c * a1 - - s * a2 + (0 * b1 - 0 * b2)) +
           (c * a2 + - s * a1 + (0 * b2 + 0 * b1)) *
           (c * a2 + - s * a1 + (0 * b2 + 0 * b1)) +
           ((0 * a1 - 0 * a2 + (c * b1 - s * b2)) *
            (0 * a1 - 0 * a2 + (c * b1 - s * b2)) +
            (0 * a2 + 0 * a1 + (c * b2 + s * b1)) *
            (0 * a2 + 0 * a1 + (c * b2 + s * b1))))
    with ((s * s + c * c) * (a1 * a1 + a2 * a2 + b1 * b1 + b2 * b2)) by ring.
  rewrite Ht. ring.
Qed.

End Norm.

Section NormCnot.

Import Engine.
Local Open Scope R_scope.

(** Flipping the bit of one wire permutes the basis states. *)
Lemma flip_norm :
  forall (n t : nat) (psi : State),
    (t < n)%nat ->
    norm2 n (fun x => psi (upd t (negb (bit t x)) x)) = norm2 n psi.
Proof.
  induction n as [|n IH]; intros t psi Ht; [lia|].
  rewrite !norm2_S. destruct t as [|t].
  - unfold bit. simpl. lra.
  - pose proof (IH t (fun y => psi (false :: y)) ltac:(lia)) as H0.
    pose proof (IH t (fun y => psi (true :: y)) ltac:(lia)) as H1.
    unfold bit in *. simpl in *. now rewrite H0, H1.
Qed.

Lemma cnot_norm :
  forall (n c t : nat) (psi : State),
    (c < n)%nat -> (t < n)%nat -> c <> t ->
    norm2 n (apply_cnot c t psi) = norm2 n psi.
Proof.
  induction n as [|n IH]; intros c t psi Hc Ht Hct; [lia|].
  destruct c as [|c], t as [|t]; [congruence| | |].
  - (* control on the first wire *)
    rewrite !norm2_S. f_equal.
    apply (flip_norm n t (fun y => psi (true :: y))). lia.
  - (* target on the first wire *)
    unfold norm2. rewrite !Rsum_basis_S.
    apply Rsum_map_ext. intros x _.
    unfold apply_cnot, cnot_basis, bit. simpl.
    destruct (nth c x false); simpl; lra.
  - (* both wires further down *)
    rewrite !norm2_S.
    assert (Hb : forall b,
               norm2 n (fun x => apply_cnot (S c) (S t) psi (b :: x))
               = norm2 n (fun x => psi (b :: x))).
    { intros b.
      rewrite <- (IH c t (fun y => psi (b :: y))) by lia.
      apply norm2_ext. intros x _.
      unfold apply_cnot, cnot_basis, bit. simpl.
      now destruct (nth c x false). }
    now rewrite !Hb.
Qed.

Lemma apply_gate_norm (n : nat) (op : Op) (psi psi' : State) :
  apply_gate n op psi = Ok psi' -> norm2 n psi' = norm2 n psi.
Proof.
  destruct op as [w|theta w|theta w|c t]; simpl.
  - destruct (Nat.ltb_spec w n); [|discriminate]. intros [= <-].
    now apply apply1_norm; [apply hadamard_norm_preserving|].
  - destruct (Nat.ltb_spec w n); [|discriminate]. intros [= <-].
    now apply apply1_norm; [apply rx_norm_preserving|].
  - destruct (Nat.ltb_spec w n); [|discriminate]. intros [= <-].
    now apply apply1_norm; [apply rz_norm_preserving|].
  - destruct (Nat.ltb_spec c n); [|discriminate].
    destruct (Nat.ltb_spec t n); [|discriminate].
    destruct (Nat.eqb_spec c t); [discriminate|]. simpl.
    intros [= <-]. now apply cnot_norm.
Qed.

Lemma apply_gate_ok (n : nat) (op : Op) (psi : State) :
  op_ok n op = true -> exists psi', apply_gate n op psi = Ok psi'.
Proof.
  destruct op as [w|theta w|theta w|c t]; simpl; intros ->; eexists; reflexivity.
Qed.


Lemma reachable_norm (n : nat) (psi : State) :
  reachable n psi -> norm2 n psi = 1.
Proof.
  induction 1 as [|psi op psi' _ IH Hop].
  - apply norm2_zero_state.
  - now rewrite (apply_gate_norm n op psi psi' Hop).
Qed.

Lemma run_reachable (n : nat) (ops : list Op) :
  forall psi psi',
    reachable n psi -> run n ops psi = Ok psi' -> reachable n psi'.
Proof.
  induction ops as [|op ops IH]; intros psi psi' Hr; simpl.
  - now intros [= <-].
  - destruct (apply_gate n op psi) as [psi1|e] eqn:Hop; [|discriminate].
    apply IH. now apply reach_gate with (psi := psi) (op := op).
Qed.

Lemma run_app (n : nat) (ops1 ops2 : list Op) :
  forall psi,
    run n (ops1 ++ ops2) psi
    = match run n ops1 psi with
      | Ok psi1 => run n ops2 psi1
      | Raise e => Raise e
      end.
Proof.
  induction ops1 as [|op ops1 IH]; intros psi; simpl; [reflexivity|].
  destruct (apply_gate n op psi); [apply IH | reflexivity].
Qed.

Lemma run_ok (n : nat) (ops : list Op) :
  forallb (op_ok n) ops = true ->
  forall psi, exists psi', run n ops psi = Ok psi'.
Proof.
  induction ops as [|op ops IH]; simpl; intros Hok psi.
  - now exists psi.
  - apply andb_true_iff in Hok. destruct Hok as [Hop Hops].
    destruct (apply_gate_ok n op psi Hop) as [psi1 ->]. now apply IH.
Qed.


End NormCnot.

(** C5: every state the engine reaches from [|0...0>] by Hadamard, RX,
    RZ and CNOT gates, with any real angles, has squared magnitudes that
    sum to 1, hence to 1 within 1e-9; and when further gates are applied
    to such a state, the state between any two of them does too. *)
Theorem C5_norm_invariant :
  forall (n : nat) (psi : Engine.State),
    Engine.reachable n psi ->
    Engine.norm2 n psi = 1%R
    /\ (Rabs (Engine.norm2 n psi - 1) <= 1e-9)%R
    /\ (forall (ops1 ops2 : list Op) (psi2 : Engine.State),
           Engine.run n (ops1 ++ ops2) psi = Ok psi2 ->
           exists psi1,
             Engine.run n ops1 psi = Ok psi1
             /\ Engine.reachable n psi1
             /\ (Rabs (Engine.norm2 n psi1 - 1) <= 1e-9)%R).
Proof.
  assert (Htol : forall r, r = 1%R -> (Rabs (r - 1) <= 1e-9)%R).
  { intros r ->. rewrite Rminus_diag, Rabs_R0. lra. }
  intros n psi Hr. pose proof (reachable_norm n psi Hr) as Hn.
  split; [exact Hn|]. split; [now apply Htol|].
  intros ops1 ops2 psi2 Hrun. rewrite run_app in Hrun.
  destruct (Engine.run n ops1 psi) as [psi1|e] eqn:H1; [|discriminate].
  exists psi1. split; [reflexivity|].
  pose proof (run_reachable n ops1 psi psi1 Hr H1) as Hr1.
  split; [exact Hr1|]. apply Htol. now apply reachable_norm.
Qed.

Lemma C5_norm_invariant_witness :
  Engine.norm2 1 (Engine.apply1 Engine.hadamard_matrix 0 Engine.zero_state) = 1%R.
Proof.
  apply (C5_norm_invariant 1
           (Engine.apply1 Engine.hadamard_matrix 0 Engine.zero_state)).
  apply Engine.reach_gate with (psi := Engine.zero_state) (op := Hadamard 0).
  - apply Engine.reach_zero.
  - reflexivity.
Defined.

(* ================================================================== *)
(** * Zero angles: the equal superposition *)
(* ================================================================== *)

Section EqualSuperposition.

Import Engine.
Local Open Scope R_scope.

Lemma upd_length (w : nat) (b : bool) (x : Basis) :
  length (upd w b x) = length x.
Proof.
  revert w. induction x as [|a x IH]; intros [|w]; simpl; auto.
Qed.

Lemma upd_bit_id (w : nat) (x : Basis) : upd w (bit w x) x = x.
Proof.
  unfold bit. revert w. induction x as [|a x IH]; intros [|w]; simpl; auto.
  now rewrite IH.
Qed.

Lemma cnot_basis_length (c t : nat) (x : Basis) :
  length (cnot_basis c t x) = length x.
Proof.
  unfold cnot_basis. destruct (bit c x); [apply upd_length | reflexivity].
Qed.

(** RX(0) and RZ(0) leave every state as it is. *)
Lemma identity_apply1 (u : Mat2) (w : nat) (psi : State) (x : Basis) :
  is_identity u -> apply1 u w psi x = psi x.
Proof.
  intros (H00 & H01 & H10 & H11). unfold apply1.
  rewrite H00, H01, H10, H11.
  pose proof (upd_bit_id w x) as Hx.
  destruct (bit w x); rewrite Hx; destruct (psi x) as [a1 a2];
    match goal with |- context [psi ?y] => destruct (psi y) as [b1 b2] end;
    unfold Cadd, Cmul, C0, C1; simpl; f_equal; ring.
Qed.

Lemma rz_zero_identity : is_identity (rz_matrix 0).
Proof.
  unfold is_identity, rz_matrix, C1, C0. simpl.
  replace (0 / 2) with 0 by field.
  rewrite cos_0, sin_0, Ropp_0. auto.
Qed.

Lemma rx_zero_identity : is_identity (rx_matrix 0).
Proof.
  unfold is_identity, rx_matrix, C1, C0. simpl.
  replace (0 / 2) with 0 by field.
  rewrite cos_0, sin_0, Ropp_0. auto.
Qed.

Lemma zero_angle_keeps_constant (n : nat) (c : C) (op : Op) (psi : State) :
  op_ok n op = true -> zero_angle op ->
  eq_on n psi (fun _ => c) ->
  exists psi', apply_gate n op psi = Ok psi' /\ eq_on n psi' (fun _ => c).
Proof.
  intros Hok Hz Hpsi.
  destruct op as [w|theta w|theta w|ct t]; simpl in *; [contradiction| | |];
    rewrite Hok; eexists; (split; [reflexivity|]); intros x Hx.
  - subst theta. rewrite identity_apply1 by apply rx_zero_identity. now apply Hpsi.
  - subst theta. rewrite identity_apply1 by apply rz_zero_identity. now apply Hpsi.
  - unfold apply_cnot. apply Hpsi. now rewrite cnot_basis_length.
Qed.

Lemma run_keeps_constant (n : nat) (c : C) (ops : list Op) :
  Forall (fun op => op_ok n op = true /\ zero_angle op) ops ->
  forall psi, eq_on n psi (fun _ => c) ->
  exists psi', run n ops psi = Ok psi' /\ eq_on n psi' (fun _ => c).
Proof.
  induction 1 as [|op ops [Hok Hz] _ IH]; intros psi Hpsi; simpl.
  - now exists psi.
  - destruct (zero_angle_keeps_constant n c op psi Hok Hz Hpsi) as (psi1 & -> & H1).
    now apply IH.
Qed.

Lemma hadamard_layer_4 (x : Basis) :
  length x = 4%nat ->
  apply1 hadamard_matrix 3 (apply1 hadamard_matrix 2
    (apply1 hadamard_matrix 1 (apply1 hadamard_matrix 0 zero_state))) x
  = (/ 4, 0).
Proof.
  assert (Hs : / sqrt 2 * / sqrt 2 = / 2).
  { rewrite <- Rinv_mult. now rewrite sqrt_sqrt by lra. }
  destruct x as [|b0 [|b1 [|b2 [|b3 [|? ?]]]]]; try discriminate. intros _.
  unfold hadamard_matrix. generalize dependent (/ sqrt 2). intros s Hs.
  replace (/ 4) with ((s * s) * (s * s)) by (rewrite Hs; field).
  destruct b0, b1, b2, b3;
    cbv [apply1 bit upd nth zero_state existsb orb m00 m01 m10 m11
         Cadd Cmul C0 C1 fst snd]; f_equal; ring.
Qed.

Lemma uniform_expectation_4 (psi : State) (e : nat * nat) :
  eq_on 4 psi (fun _ => (/ 4, 0)) -> In e Main.graph ->
  expectation 4 psi (PauliZZ (fst e) (snd e)) = Ok 0.
Proof.
  intros Hpsi He.
  assert (Hsum : forall i j,
             Rsum (map (fun x => zz_sign i j x * Cnorm2 (psi x)) (basis_states 4))
             = Rsum (map (fun x => zz_sign i j x * / 16) (basis_states 4))).
  { intros i j. apply Rsum_map_ext. intros x Hx.
    rewrite (Hpsi x (basis_states_length 4 x Hx)).
    unfold Cnorm2. simpl. f_equal. field. }
  unfold Main.graph in He. simpl in He.
  destruct He as [<-|[<-|[<-|[<-|[]]]]]; unfold expectation; simpl fst; simpl snd;
    cbv [Nat.ltb Nat.leb andb]; f_equal; rewrite Hsum;
    cbv [basis_states map app Rsum fold_right zz_sign bit nth xorb]; lra.
Qed.

(** The queue of the circuit of main.py at [gamma = 0], [beta = 0] runs
    to the equal superposition. *)
Lemma zero_params_run :
  exists psi,
    run 4 (map Hadamard (seq 0 4)
           ++ flat_map (fun l => Spec.layer_gates 4 Main.graph (nth l [0] 0)
                                   (2 * nth l [0] 0)) (seq 0 1))
        zero_state = Ok psi
    /\ eq_on 4 psi (fun _ => (/ 4, 0)).
Proof.
  rewrite run_app.
  cbn [seq map run apply_gate Nat.ltb Nat.leb].
  apply run_keeps_constant; [|exact hadamard_layer_4].
  cbv [Main.graph seq flat_map app Spec.layer_gates map fst snd nth].
  repeat constructor; simpl; lra.
Qed.

Lemma zero_params_circuit {W} (uniform : W -> R * W) (e : nat * nat) (w : W) :
  In e Main.graph ->
  Main.circuit Main.n_wires Main.graph (execute uniform) [0] [0] (Some e) 1 w
  = (Ok 0, w).
Proof.
  intros He. destruct zero_params_run as (psi & Hrun & Hpsi).
  unfold Main.circuit, qnode.
  rewrite (main_circuit_emits Main.n_wires Main.graph [0] [0] (Some e) 1)
    by (simpl; lia).
  cbn [app measurement_of]. unfold execute. cbn [Main.dev dev_wires].
  unfold Main.n_wires. rewrite Hrun. unfold lift.
  now rewrite (uniform_expectation_4 psi e Hpsi He).
Qed.

End EqualSuperposition.

(** C6: for [p = 1], the 4-cycle of main.py and [gamma = beta = 0], the
    engine runs the recorded queue to the state whose sixteen amplitudes
    all equal 1/4, the equal superposition; for every edge of the graph
    the Z(x)Z expectation value of that state is 0, and the circuit called
    for that edge returns a value within 1e-9 of 0. *)
Theorem C6_zero_parameters :
  forall edge : option (nat * nat),
    exists psi : Engine.State,
      Engine.run Main.n_wires
        (snd (Main.circuit_qfunc Main.n_wires Main.graph [0%R] [0%R] edge 1 []))
        Engine.zero_state = Ok psi
      /\ length (Engine.basis_states Main.n_wires) = 16
      /\ Forall (fun x => psi x = (/ 4, 0)%R) (Engine.basis_states Main.n_wires)
      /\ Forall (fun e => Engine.expectation Main.n_wires psi (PauliZZ (fst e) (snd e))
                          = Ok 0%R) Main.graph
      /\ Forall (fun e =>
                   forall (W : Type) (uniform : W -> R * W) (w : W),
                   exists v : R,
                     Main.circuit Main.n_wires Main.graph (Engine.execute uniform)
                                  [0%R] [0%R] (Some e) 1 w = (Ok v, w)
                     /\ (Rabs (v - 0) <= 1e-9)%R) Main.graph.
Proof.
  intros edge. destruct zero_params_run as (psi & Hrun & Hpsi).
  exists psi.
  rewrite (main_circuit_emits Main.n_wires Main.graph [0%R] [0%R] edge 1)
    by (simpl; lia).
  split; [exact Hrun|]. split; [reflexivity|]. split; [|split].
  - apply Forall_forall. intros x Hx.
    apply Hpsi. now apply basis_states_length.
  - apply Forall_forall. intros e He. now apply uniform_expectation_4.
  - apply Forall_forall. intros e He W uniform w. exists 0%R.
    split; [now apply zero_params_circuit|].
    rewrite Rminus_diag, Rabs_R0. lra.
Qed.

(* ================================================================== *)
(** * The circuit has no mode argument *)
(* ================================================================== *)

Lemma engine_analytic {W} (uniform : W -> R * W) :
  analytic (Engine.execute uniform) exact_expval.
Proof.
  intros dev ops o w. unfold Engine.execute, exact_expval.
  destruct (Engine.run (dev_wires dev) ops Engine.zero_state); reflexivity.
Qed.

Lemma layer_gates_ok n graph angle beta2 :
  graph_ok n graph = true ->
  forallb (op_ok n) (Spec.layer_gates n graph angle beta2) = true.
Proof.
  intros Hg. unfold graph_ok in Hg. rewrite forallb_forall in Hg.
  apply forallb_forall. intros op Hop. unfold Spec.layer_gates in Hop.
  apply in_app_or in Hop. destruct Hop as [Hop|Hop].
  - apply in_flat_map in Hop. destruct Hop as (e & He & Hop).
    specialize (Hg e He). apply andb_true_iff in Hg. destruct Hg as [Hg Hne].
    apply andb_true_iff in Hg. destruct Hg as [Hi Hj].
    simpl in Hop. destruct Hop as [<-|[<-|[<-|[]]]]; simpl;
      now rewrite ?Hi, ?Hj, ?Hne.
  - apply in_map_iff in Hop. destruct Hop as (w & <- & Hw).
    apply in_seq in Hw. simpl. apply Nat.ltb_lt. lia.
Qed.

Lemma recorded_ops_ok n graph p (angle beta2 : nat -> R) :
  graph_ok n graph = true ->
  forallb (op_ok n)
    (map Hadamard (seq 0 n)
     ++ flat_map (fun l => Spec.layer_gates n graph (angle l) (beta2 l)) (seq 0 p))
  = true.
Proof.
  intros Hg. rewrite forallb_app. apply andb_true_iff. split.
  - apply forallb_forall. intros op Hop.
    apply in_map_iff in Hop. destruct Hop as (w & <- & Hw).
    apply in_seq in Hw. simpl. apply Nat.ltb_lt. lia.
  - apply forallb_forall. intros op Hop.
    apply in_flat_map in Hop. destruct Hop as (l & _ & Hop).
    pose proof (layer_gates_ok n graph (angle l) (beta2 l) Hg) as Hl.
    rewrite forallb_forall in Hl. now apply Hl.
Qed.



Lemma sample_mode_ok {W} (uniform : W -> R * W) n_wires graph gammas betas
  n_layers (w : W) :
  n_layers <= length gammas -> n_layers <= length betas ->
  graph_ok n_wires graph = true ->
  exists bits w',
    Main.circuit n_wires graph (Engine.execute uniform) gammas betas None n_layers w
    = (Ok bits, w').
Proof.
  intros Hg Hb Hok. unfold Main.circuit, qnode.
  rewrite (main_circuit_emits n_wires graph gammas betas None n_layers Hg Hb).
  cbn [app measurement_of]. unfold Engine.execute. cbn [Main.dev dev_wires].
  destruct (run_ok n_wires _ (recorded_ops_ok n_wires graph n_layers
                                (fun l => nth l gammas 0%R)
                                (fun l => (2 * nth l betas 0)%R) Hok)
                   Engine.zero_state) as [psi ->].
  unfold Engine.measure_sample. destruct (uniform w) as [u w'].
  eexists. eexists. reflexivity.
Qed.






(* ================================================================== *)
(** * The objective on the engine *)
(* ================================================================== *)

Lemma C1_objective_cost_witness :
  Main.objective Main.n_wires Main.graph (Engine.execute Engine.lcg16) 1
                 [[0%R]; [0%R]] 0
  = (Ok (-0.5 * Engine.Rsum (map (fun _ => 1 - 0) Main.graph))%R, 0).
Proof.
  destruct (C1_objective_cost Main.n_wires Main.graph nat
              (Engine.execute Engine.lcg16) 1 [[0%R]; [0%R]] [0%R] [0%R] 0
              eq_refl eq_refl) as [_ H].
  apply (H (fun _ => 0%R)).
  intros e w' He. now apply zero_params_circuit.
Defined.

Lemma C7_objective_deterministic_witness :
  fst (Main.objective Main.n_wires Main.graph (Engine.execute Engine.lcg16) 1
                      [[0%R]; [0%R]] 0)
  = fst (Main.objective Main.n_wires Main.graph (Engine.execute Engine.lcg16) 1
                        [[0%R]; [0%R]] 7).
Proof.
  apply (C7_objective_deterministic Main.n_wires Main.graph nat
           (Engine.execute Engine.lcg16) exact_expval
           (engine_analytic Engine.lcg16) 1 [[0%R]; [0%R]] 0 7).
Defined.

(* ================================================================== *)
(** * The objective on a device with one shot *)
(* ================================================================== *)

Lemma pick_ext (u : R) (psi phi : Engine.State) (xs : list Engine.Basis) :
  (forall x, In x xs -> Engine.Cnorm2 (psi x) = Engine.Cnorm2 (phi x)) ->
  forall acc, Engine.pick u xs psi acc = Engine.pick u xs phi acc.
Proof.
  induction xs as [|x xs IH]; intros H acc; [reflexivity|].
  cbn [Engine.pick]. destruct xs as [|y xs]; [reflexivity|].
  rewrite (H x (or_introl eq_refl)).
  destruct (Rlt_dec u (acc + Engine.Cnorm2 (phi x))); [reflexivity|].
  apply IH. intros z Hz. apply H. now right.
Qed.

(** On the equal superposition of four wires, the draw [k/16] selects the
    basis state that spells [k]. *)
Lemma pick_equal_superposition (psi : Engine.State) (k : nat) :
  eq_on 4 psi (fun _ => (/ 4, 0)%R) ->
  k < 16 ->
  Engine.pick (INR k / 16) (Engine.basis_states 4) psi 0
  = nth k (Engine.basis_states 4) [].
Proof.
  intros Hpsi Hk.
  rewrite (pick_ext (INR k / 16) psi (fun _ => (/ 4, 0)%R))
    by (intros x Hx; now rewrite (Hpsi x (basis_states_length 4 x Hx))).
  do 16 (destruct k as [|k]; [
    cbv [Engine.basis_states map app Engine.pick Engine.Cnorm2 fst snd nth INR];
    repeat match goal with
           | |- context [Rlt_dec ?a ?b] =>
               destruct (Rlt_dec a b); [try (exfalso; lra) | try (exfalso; lra)]
           end;
    reflexivity |]).
  lia.
Qed.

(** At [gamma = beta = 0] a run of the circuit on the one-shot device
    returns the eigenvalue of the one basis state drawn. *)
Lemma one_shot_circuit (e : nat * nat) (s : nat) :
  In e Main.graph ->
  Main.circuit Main.n_wires Main.graph (Engine.execute_shots Engine.lcg16)
               [0%R] [0%R] (Some e) 1 s
  = (Ok ((Engine.zz_sign (fst e) (snd e)
                         (nth (s mod 16) (Engine.basis_states 4) []) + 0)
         / INR 1)%R,
     (5 * s + 3) mod 16).
Proof.
  intros He. destruct zero_params_run as (psi & Hrun & Hpsi).
  unfold Main.circuit, qnode.
  rewrite (main_circuit_emits Main.n_wires Main.graph [0%R] [0%R] (Some e) 1)
    by (simpl; lia).
  cbn [app measurement_of]. unfold Engine.execute_shots.
  cbn [Main.dev dev_wires dev_shots]. unfold Main.n_wires. rewrite Hrun.
  assert (Hin : ((fst e <? 4) && (snd e <? 4))%bool = true).
  { unfold Main.graph in He. simpl in He.
    destruct He as [<-|[<-|[<-|[<-|[]]]]]; reflexivity. }
  unfold Engine.estimate. rewrite Hin.
  cbn [Engine.shot_sum]. unfold bind, ret, Engine.measure_sample, Engine.lcg16.
  rewrite (pick_equal_superposition psi (s mod 16) Hpsi)
    by (apply Nat.mod_upper_bound; lia).
  reflexivity.
Qed.

Lemma one_shot_step (e : nat * nat) (s s' : nat) (v : R) :
  In e Main.graph ->
  (5 * s + 3) mod 16 = s' ->
  Engine.zz_sign (fst e) (snd e) (nth (s mod 16) (Engine.basis_states 4) []) = v ->
  Main.circuit Main.n_wires Main.graph (Engine.execute_shots Engine.lcg16)
               [0%R] [0%R] (Some e) 1 s
  = (Ok ((v + 0) / INR 1)%R, s').
Proof.
  intros He <- <-. now apply one_shot_circuit.
Qed.

(** One evaluation of the objective at [gamma = beta = 0] on the one-shot
    device: four draws, one per edge. *)
Lemma one_shot_objective (s0 s1 s2 s3 s4 : nat) (v0 v1 v2 v3 : R) :
  (5 * s0 + 3) mod 16 = s1 -> (5 * s1 + 3) mod 16 = s2 ->
  (5 * s2 + 3) mod 16 = s3 -> (5 * s3 + 3) mod 16 = s4 ->
  Engine.zz_sign 0 1 (nth (s0 mod 16) (Engine.basis_states 4) []) = v0 ->
  Engine.zz_sign 0 3 (nth (s1 mod 16) (Engine.basis_states 4) []) = v1 ->
  Engine.zz_sign 1 2 (nth (s2 mod 16) (Engine.basis_states 4) []) = v2 ->
  Engine.zz_sign 2 3 (nth (s3 mod 16) (Engine.basis_states 4) []) = v3 ->
  Main.objective Main.n_wires Main.graph (Engine.execute_shots Engine.lcg16) 1
                 [[0%R]; [0%R]] s0
  = (Ok (- (0.5 * (1 - v0)) - 0.5 * (1 - v1) - 0.5 * (1 - v2) - 0.5 * (1 - v3))%R,
     s4).
Proof.
  intros H1 H2 H3 H4 E0 E1 E2 E3.
  unfold Main.objective.
  unfold bind at 1, lift at 1. cbn [index nth_error].
  unfold bind at 1, lift at 1.
  unfold Main.graph at 1. cbn [for_acc].
  unfold bind at 1. unfold bind at 1.
  rewrite (one_shot_step (0, 1) s0 s1 v0) by (try assumption; simpl; tauto).
  unfold ret at 1.
  unfold bind at 1. unfold bind at 1.
  rewrite (one_shot_step (0, 3) s1 s2 v1) by (try assumption; simpl; tauto).
  unfold ret at 1.
  unfold bind at 1. unfold bind at 1.
  rewrite (one_shot_step (1, 2) s2 s3 v2) by (try assumption; simpl; tauto).
  unfold ret at 1.
  unfold bind at 1. unfold bind at 1.
  rewrite (one_shot_step (2, 3) s3 s4 v3) by (try assumption; simpl; tauto).
  unfold ret. do 2 f_equal. simpl INR. field.
Qed.

(** C7 as stated fails on the device main.py creates ([shots = 1]): at
    [gamma = beta = 0], from the state 2 of the random source, the
    objective returns -1, and evaluated again on the same parameters it
    returns -2. *)
Lemma C7_one_shot_objective_differs :
  ~ (forall (params : list (list R)) (w : nat),
        fst (Main.objective Main.n_wires Main.graph
               (Engine.execute_shots Engine.lcg16) 1 params
               (snd (Main.objective Main.n_wires Main.graph
                       (Engine.execute_shots Engine.lcg16) 1 params w)))
        = fst (Main.objective Main.n_wires Main.graph
                 (Engine.execute_shots Engine.lcg16) 1 params w)).
Proof.
  intros H. specialize (H [[0%R]; [0%R]] 2).
  rewrite (one_shot_objective 2 13 4 7 6 1 1 (-1) 1) in H by reflexivity.
  cbn [fst snd] in H.
  rewrite (one_shot_objective 6 1 8 11 10 (-1) (-1) 1 1) in H by reflexivity.
  cbn [fst] in H. injection H as H. lra.
Qed.


(* ================================================================== *)
(** * Bit sequences, integers and the printed pattern *)
(* ================================================================== *)

Lemma int_base2_from_bits (bits : list bool) :
  forall acc,
    int_base2_from acc (join (map str_bit bits))
    = Ok (fold_left (fun a (b : bool) => 2 * a + (if b then 1 else 0)) bits acc).
Proof.
  induction bits as [|b bits IH]; intros acc; [reflexivity|].
  destruct b; cbn [map join fold_right str_bit String.append fold_left
                   int_base2_from Ascii.eqb Bool.eqb];
    fold (join (map str_bit bits)); rewrite IH; do 2 f_equal; lia.
Qed.

Lemma bitstring_to_int_value (bits : list bool) :
  bits <> [] -> Main.bitstring_to_int bits = Ok (bits_value bits).
Proof.
  intros Hne. unfold Main.bitstring_to_int, bits_value.
  rewrite <- int_base2_from_bits.
  destruct bits as [|b bits]; [congruence|]. now destruct b.
Qed.

Lemma fold_bits_shift (bits : list bool) :
  forall acc,
    fold_left (fun a (b : bool) => 2 * a + (if b then 1 else 0)) bits acc
    = acc * 2 ^ length bits + bits_value bits.
Proof.
  unfold bits_value.
  induction bits as [|b bits IH]; intros acc; cbn [fold_left length]; [simpl; lia|].
  rewrite IH. rewrite (IH (2 * 0 + (if b then 1 else 0))).
  rewrite Nat.pow_succ_r'. destruct b; lia.
Qed.

Lemma bits_value_cons (b : bool) (bits : list bool) :
  bits_value (b :: bits)
  = (if b then 1 else 0) * 2 ^ length bits + bits_value bits.
Proof.
  unfold bits_value at 1. simpl. now rewrite fold_bits_shift.
Qed.

Lemma bits_value_bound (bits : list bool) :
  bits_value bits < 2 ^ length bits.
Proof.
  induction bits as [|b bits IH]; [simpl; unfold bits_value; simpl; lia|].
  rewrite bits_value_cons. simpl. destruct b; lia.
Qed.

Lemma bits_value_inj (a : list bool) :
  forall b, length a = length b -> bits_value a = bits_value b -> a = b.
Proof.
  induction a as [|x a IH]; intros [|y b] Hlen Hv; try discriminate;
    [reflexivity|].
  injection Hlen as Hlen. rewrite !bits_value_cons in Hv.
  pose proof (bits_value_bound a) as Ha.
  pose proof (bits_value_bound b) as Hb.
  rewrite <- Hlen in Hv, Hb.
  assert (x = y /\ bits_value a = bits_value b) as [-> Hab].
  { destruct x, y; split; try reflexivity; lia. }
  f_equal. now apply IH.
Qed.

(** X1: [bitstring_to_int] raises ValueError on an empty sample; on any
    other sample it returns the integer the bits spell, first bit most
    significant, which is below two to the number of bits. *)
Theorem bitstring_to_int_spec :
  forall bits : list bool,
    Main.bitstring_to_int [] = Raise "ValueError"%string
    /\ (bits <> [] ->
        Main.bitstring_to_int bits = Ok (bits_value bits)
        /\ bits_value bits < 2 ^ length bits).
Proof.
  intros bits. split; [reflexivity|]. intros Hne.
  split; [now apply bitstring_to_int_value | apply bits_value_bound].
Qed.

Lemma bitstring_to_int_spec_witness :
  Main.bitstring_to_int [true; false; true] = Ok (bits_value [true; false; true])
  /\ bits_value [true; false; true] < 2 ^ length [true; false; true].
Proof.
  apply (bitstring_to_int_spec [true; false; true]). discriminate.
Defined.

(** X2: two samples of the same length that [bitstring_to_int] maps to
    the same integer are the same sample. *)
Theorem bitstring_to_int_injective :
  forall a b : list bool,
    a <> [] -> length a = length b ->
    Main.bitstring_to_int a = Main.bitstring_to_int b -> a = b.
Proof.
  intros a b Ha Hlen Heq.
  assert (Hb : b <> []) by (destruct a, b; try discriminate; congruence).
  rewrite !bitstring_to_int_value in Heq by assumption.
  injection Heq as Heq. now apply bits_value_inj.
Qed.

Lemma bitstring_to_int_injective_witness :
  [false; true] = [false; true].
Proof.
  apply (bitstring_to_int_injective [false; true] [false; true]);
    [discriminate | reflexivity | reflexivity].
Defined.

(** ** The printed pattern *)

Lemma int_base2_from_zeros (k : nat) (s : string) :
  int_base2_from 0 (String.append (zeros k) s) = int_base2_from 0 s.
Proof. induction k as [|k IH]; simpl; [reflexivity | exact IH]. Qed.

Lemma int_base2_from_pos_digits (p : positive) :
  forall (a : nat) (rest : string),
    int_base2_from a (pos_digits p rest)
    = int_base2_from (a * 2 ^ Pos.size_nat p + Pos.to_nat p) rest.
Proof.
  induction p as [q IH|q IH|]; intros a rest; simpl pos_digits.
  - rewrite IH. cbn [int_base2_from Ascii.eqb Bool.eqb]. f_equal.
    rewrite Pos2Nat.inj_xI.
    change (Pos.size_nat q~1) with (S (Pos.size_nat q)).
    rewrite Nat.pow_succ_r'. lia.
  - rewrite IH. cbn [int_base2_from Ascii.eqb Bool.eqb]. f_equal.
    rewrite Pos2Nat.inj_xO.
    change (Pos.size_nat q~0) with (S (Pos.size_nat q)).
    rewrite Nat.pow_succ_r'. lia.
  - cbn [int_base2_from Ascii.eqb Bool.eqb]. f_equal.
    change (Pos.size_nat 1) with 1. rewrite Pos2Nat.inj_1. simpl. lia.
Qed.

Lemma pos_digits_nonempty (p : positive) (rest : string) :
  pos_digits p rest <> EmptyString.
Proof.
  revert rest. induction p as [q IH|q IH|]; intros rest; simpl;
    [apply IH | apply IH | discriminate].
Qed.

Lemma int_base2_format_b (n : nat) :
  format_b n <> EmptyString /\ int_base2_from 0 (format_b n) = Ok n.
Proof.
  unfold format_b. destruct n as [|n]; [split; [discriminate | reflexivity]|].
  split; [apply pos_digits_nonempty|].
  rewrite int_base2_from_pos_digits. cbn [int_base2_from].
  rewrite Nat2Pos.id by discriminate. f_equal.
Qed.

(** X3: parsing in base 2 the string that ["{:04b}".format(n)] prints
    gives [n] back, for every [n]. *)
Theorem format_04b_round_trip :
  forall n : nat, int_base2 (format_04b n) = Ok n.
Proof.
  intros n. destruct (int_base2_format_b n) as [Hne Hv].
  unfold format_04b.
  assert (H : int_base2_from 0 (String.append (zeros (4 - String.length (format_b n)))
                                              (format_b n)) = Ok n)
    by now rewrite int_base2_from_zeros.
  unfold int_base2.
  destruct (String.append _ _) eqn:E; [|exact H].
  destruct (zeros (4 - String.length (format_b n))); simpl in E;
    [contradiction | discriminate].
Qed.

(** X4: for a sample of four bits, the pattern printed for its integer
    is the sample itself, bit for bit. *)
Theorem printed_pattern_is_sample :
  forall (bits : list bool) (k : nat),
    length bits = 4 ->
    Main.bitstring_to_int bits = Ok k ->
    format_04b k = join (map str_bit bits).
Proof.
  intros bits k Hlen Hk.
  destruct bits as [|b0 [|b1 [|b2 [|b3 [|? ?]]]]]; try discriminate.
  destruct b0, b1, b2, b3; injection Hk as <-; reflexivity.
Qed.

Lemma printed_pattern_is_sample_witness :
  format_04b 5 = join (map str_bit [false; true; false; true]).
Proof.
  apply (printed_pattern_is_sample [false; true; false; true] 5); reflexivity.
Defined.

(* ================================================================== *)
(** * The histogram and the sampling loop *)
(* ================================================================== *)

Lemma list_sum_map_add {X} (f g : X -> nat) (l : list X) :
  list_sum (map (fun x => f x + g x) l) = list_sum (map f l) + list_sum (map g l).
Proof. induction l as [|x l IH]; simpl; lia. Qed.

Lemma list_sum_indicator (a n : nat) :
  a < n ->
  list_sum (map (fun v => if Nat.eq_dec a v then 1 else 0) (seq 0 n)) = 1.
Proof.
  induction n as [|n IH]; intros Ha; [lia|].
  rewrite seq_S, map_app, list_sum_app. simpl.
  destruct (Nat.eq_dec a n) as [->|Hne].
  - assert (H0 : list_sum (map (fun v => if Nat.eq_dec n v then 1 else 0) (seq 0 n)) = 0).
    { clear. assert (H : forall v, In v (seq 0 n) -> v < n)
        by (intros v Hv; apply in_seq in Hv; lia).
      induction (seq 0 n) as [|v l IHl]; [reflexivity|]. simpl.
      destruct (Nat.eq_dec n v) as [->|_].
      - specialize (H v (or_introl eq_refl)). lia.
      - apply IHl. intros u Hu. apply H. now right. }
    rewrite H0. lia.
  - rewrite IH by lia. lia.
Qed.

Lemma count_sum_below (n : nat) (l : list nat) :
  Forall (fun a => a < n) l ->
  list_sum (map (count_occ Nat.eq_dec l) (seq 0 n)) = length l.
Proof.
  induction 1 as [|a l Ha _ IH]; simpl.
  - induction (seq 0 n); simpl; auto.
  - rewrite (map_ext (fun v => if Nat.eq_dec a v then S (count_occ Nat.eq_dec l v)
                                else count_occ Nat.eq_dec l v)
                     (fun v => (if Nat.eq_dec a v then 1 else 0)
                               + count_occ Nat.eq_dec l v))
      by (intros v; destruct (Nat.eq_dec a v); reflexivity).
    rewrite list_sum_map_add, list_sum_indicator by exact Ha.
    now rewrite IH.
Qed.

(** X5: the entries of [np.bincount(x)] add up to the number of samples;
    entry [v], or 0 beyond the end, is the number of occurrences of [v];
    for a non-empty [x] there is one entry more than the largest sample. *)
Theorem bincount_total :
  forall x : list nat,
    list_sum (bincount x) = length x
    /\ (forall v, nth v (bincount x) 0 = Spec.occurrences x v)
    /\ (x <> [] -> length (bincount x) = list_max x + 1).
Proof.
  intros x. split; [|split].
  - destruct x as [|a x]; [reflexivity|]. unfold bincount.
    apply count_sum_below.
    pose proof (proj1 (list_max_le (a :: x) (list_max (a :: x))) (Nat.le_refl _)) as H.
    eapply Forall_impl; [|exact H]. simpl. intros; lia.
  - intros v. destruct x as [|a x]; [now destruct v|].
    destruct (Nat.le_gt_cases v (list_max (a :: x))) as [Hv|Hv].
    + apply bincount_nth; [discriminate | exact Hv].
    + rewrite occurrences_above_max by exact Hv.
      apply nth_overflow. rewrite bincount_length by discriminate. lia.
  - intros Hne. rewrite bincount_length by exact Hne. lia.
Qed.

Lemma bincount_total_witness :
  length (bincount [5; 10; 10; 5; 3]) = list_max [5; 10; 10; 5; 3] + 1.
Proof.
  apply (bincount_total [5; 10; 10; 5; 3]). discriminate.
Defined.

Lemma most_freq_in (xs : list nat) :
  xs <> [] -> exists m, Main.most_freq_bit_string xs = Ok m /\ In m xs.
Proof.
  intros Hne.
  assert (Hcne : bincount xs <> []).
  { intros E. apply (f_equal (@length nat)) in E.
    rewrite bincount_length in E by exact Hne. discriminate. }
  destruct (argmax_spec (bincount xs) Hcne) as (m & Hm & Hlt & Hmax & _).
  rewrite bincount_length in Hlt, Hmax by exact Hne.
  exists m. split; [exact Hm|].
  destruct xs as [|a xs]; [congruence|].
  apply (count_occ_In Nat.eq_dec).
  assert (Ha : a <= list_max (a :: xs)).
  { pose proof (proj1 (list_max_le (a :: xs) _) (Nat.le_refl _)) as H.
    now inversion H. }
  specialize (Hmax a ltac:(lia)).
  rewrite !bincount_nth in Hmax by (try discriminate; lia).
  unfold Spec.occurrences in Hmax.
  assert (count_occ Nat.eq_dec (a :: xs) a > 0) by (apply count_occ_In; now left).
  lia.
Qed.

Lemma sample_loop {W} (execute : Executor W) n_wires graph n_layers
  (params : list (list R)) (gammas betas : list R) :
  index params 0 = Ok gammas ->
  index params 1 = Ok betas ->
  n_layers <= length gammas ->
  n_layers <= length betas ->
  0 < n_wires ->
  (forall w, exists bits w',
      execute _ (Main.dev n_wires)
              (snd (Main.circuit_qfunc n_wires graph gammas betas None n_layers []))
              Sample w = (Ok bits, w')
      /\ length bits = n_wires) ->
  forall (xs : list nat) (acc : list nat) (w : W),
    Forall (fun k => k < 2 ^ n_wires) acc ->
    exists l w',
      for_acc xs acc (fun bit_strings _ =>
        p0 <- lift (index params 0) ;;
        p1 <- lift (index params 1) ;;
        s <- Main.circuit n_wires graph execute p0 p1 None n_layers ;;
        k <- lift (Main.bitstring_to_int s) ;;
        ret (bit_strings ++ [k])) w = (Ok l, w')
      /\ length l = length acc + length xs
      /\ Forall (fun k => k < 2 ^ n_wires) l.
Proof.
  intros Hp0 Hp1 Hg Hb Hn Hdev.
  rewrite (main_circuit_emits n_wires graph gammas betas None n_layers Hg Hb) in Hdev.
  cbn [snd app] in Hdev.
  set (body := fun (bit_strings : list nat) (_ : nat) =>
                 p0 <- lift (index params 0) ;;
                 p1 <- lift (index params 1) ;;
                 s <- Main.circuit n_wires graph execute p0 p1 None n_layers ;;
                 k <- lift (Main.bitstring_to_int s) ;;
                 ret (bit_strings ++ [k])).
  induction xs as [|x xs IH]; intros acc w Hacc; cbn [for_acc].
  - exists acc, w. repeat split; [simpl; lia | exact Hacc].
  - destruct (Hdev w) as (bits & w1 & Hex & Hlen).
    assert (Hbits : bits <> []) by (destruct bits; simpl in Hlen; [lia | discriminate]).
    assert (Hstep : body acc x w = (Ok (acc ++ [bits_value bits]), w1)).
    { unfold body, bind, lift, ret, Main.circuit, qnode.
      rewrite Hp0, Hp1.
      rewrite (main_circuit_emits n_wires graph gammas betas None n_layers Hg Hb).
      cbn [app measurement_of]. change (Main.ret_type None) with (list bool).
      rewrite Hex.
      now rewrite (bitstring_to_int_value bits Hbits). }
    destruct (IH (acc ++ [bits_value bits]) w1) as (l & w' & Hl & Hlen' & Hall).
    { apply Forall_app. split; [exact Hacc|]. constructor; [|constructor].
      rewrite <- Hlen. apply bits_value_bound. }
    exists l, w'. split; [|split; [|exact Hall]].
    + unfold bind. rewrite Hstep. exact Hl.
    + rewrite Hlen', length_app. simpl. lia.
Qed.

(** X6: with two rows of at least [n_layers] parameters and a device
    that answers the recorded queue with a sample of [n_wires] bits, the
    sampling loop of [qaoa_maxcut] returns [n_samples] integers, all below
    [2 ^ n_wires], and the reported most frequent one is below
    [2 ^ n_wires] too. *)
Theorem sampling_pipeline :
  forall (W : Type) (execute : Executor W) (n_wires : nat)
         (graph : list (nat * nat)) (n_layers : nat) (params : list (list R))
         (gammas betas : list R) (n_samples : nat) (w : W),
    index params 0 = Ok gammas ->
    index params 1 = Ok betas ->
    n_layers <= length gammas ->
    n_layers <= length betas ->
    0 < n_wires ->
    0 < n_samples ->
    (forall w0, exists bits w1,
        execute _ (Main.dev n_wires)
                (snd (Main.circuit_qfunc n_wires graph gammas betas None n_layers []))
                Sample w0 = (Ok bits, w1)
        /\ length bits = n_wires) ->
    exists (bit_strings : list nat) (w' : W) (m : nat),
      Main.sample_bit_strings n_wires graph execute n_layers params n_samples w
      = (Ok bit_strings, w')
      /\ length bit_strings = n_samples
      /\ Forall (fun k => k < 2 ^ n_wires) bit_strings
      /\ Main.most_freq_bit_string bit_strings = Ok m
      /\ m < 2 ^ n_wires.
Proof.
  intros W execute n_wires graph n_layers params gammas betas n_samples w
         Hp0 Hp1 Hg Hb Hn Hs Hdev.
  destruct (sample_loop execute n_wires graph n_layers params gammas betas
              Hp0 Hp1 Hg Hb Hn Hdev (range n_samples) [] w (Forall_nil _))
    as (l & w' & Hl & Hlen & Hall).
  unfold range in Hlen. rewrite length_seq in Hlen. simpl in Hlen.
  assert (Hne : l <> []) by (destruct l; simpl in Hlen; [lia | discriminate]).
  destruct (most_freq_in l Hne) as (m & Hm & Hin).
  exists l, w', m. repeat split; try assumption.
  rewrite Forall_forall in Hall. now apply Hall.
Qed.

Lemma pick_in (u : R) (psi : Engine.State) (xs : list Engine.Basis) :
  forall acc, xs <> [] -> In (Engine.pick u xs psi acc) xs.
Proof.
  induction xs as [|x xs IH]; intros acc Hne; [congruence|].
  cbn [Engine.pick]. destruct xs as [|y xs]; [now left|].
  destruct (Rlt_dec u (acc + Engine.Cnorm2 (psi x))); [now left|].
  right. apply IH. discriminate.
Qed.

Lemma basis_states_nonempty (n : nat) : Engine.basis_states n <> [].
Proof.
  induction n as [|n IH]; simpl; [discriminate|].
  destruct (Engine.basis_states n); [congruence | discriminate].
Qed.

Lemma engine_sample_length {W} (uniform : W -> R * W) n_wires graph gammas betas
  n_layers :
  n_layers <= length gammas -> n_layers <= length betas ->
  graph_ok n_wires graph = true ->
  forall w, exists bits w',
    Engine.execute uniform _ (Main.dev n_wires)
      (snd (Main.circuit_qfunc n_wires graph gammas betas None n_layers []))
      Sample w = (Ok bits, w')
    /\ length bits = n_wires.
Proof.
  intros Hg Hb Hok w.
  rewrite (main_circuit_emits n_wires graph gammas betas None n_layers Hg Hb).
  cbn [snd app]. unfold Engine.execute. cbn [Main.dev dev_wires].
  destruct (run_ok n_wires _ (recorded_ops_ok n_wires graph n_layers
                                (fun l => nth l gammas 0%R)
                                (fun l => (2 * nth l betas 0)%R) Hok)
                   Engine.zero_state) as [psi ->].
  unfold Engine.measure_sample. destruct (uniform w) as [u w'].
  eexists. eexists. split; [reflexivity|].
  apply basis_states_length. apply pick_in. apply basis_states_nonempty.
Qed.

Lemma sampling_pipeline_witness :
  exists (bit_strings : list nat) (w' : nat) (m : nat),
    Main.sample_bit_strings Main.n_wires Main.graph (Engine.execute Engine.lcg16)
                            1 [[0%R]; [0%R]] 100 0
    = (Ok bit_strings, w')
    /\ length bit_strings = 100
    /\ Forall (fun k => k < 2 ^ Main.n_wires) bit_strings
    /\ Main.most_freq_bit_string bit_strings = Ok m
    /\ m < 2 ^ Main.n_wires.
Proof.
  apply (sampling_pipeline nat (Engine.execute Engine.lcg16) Main.n_wires
           Main.graph 1 [[0%R]; [0%R]] [0%R] [0%R] 100 0);
    try reflexivity; try (simpl; lia); try (unfold Main.n_wires; lia).
  apply engine_sample_length; [simpl; lia | simpl; lia | reflexivity].
Defined.

(* ================================================================== *)
(** * Failures of the quantum functions *)
(* ================================================================== *)

Lemma raises_bind {S A B} (E : exn) (c : SE S A) (k : A -> SE S B) (a : A) :
  may_raise E a c -> raises E (k a) -> raises E (bind c k).
Proof.
  intros Hc Hk s. unfold bind.
  destruct (Hc s) as [s1 [H|H]]; rewrite H; [apply Hk | now exists s1].
Qed.

Lemma raises_index_bind {S A B} (l : list A) (i : nat) (k : A -> SE S B) :
  (forall a, raises "IndexError"%string (k a)) ->
  raises "IndexError"%string (bind (lift (index l i)) k).
Proof.
  intros Hk s. unfold bind, lift, index.
  destruct (nth_error l i) as [a|]; [apply Hk | now exists s].
Qed.

Lemma raises_index_out {S A B} (l : list A) (i : nat) (k : A -> SE S B) :
  length l <= i -> raises "IndexError"%string (bind (lift (index l i)) k).
Proof.
  intros Hi s. unfold bind, lift. rewrite (index_out_of_range l i Hi).
  now exists s.
Qed.

Lemma raises_for {S X} (E : exn) (pre post : list X) (x : X)
  (body : X -> SE S unit) :
  (forall y, may_raise E tt (body y)) ->
  raises E (body x) ->
  raises E (for_ (pre ++ x :: post) body).
Proof.
  intros Hall Hx. unfold for_. induction pre as [|y pre IH]; simpl.
  - intros s. unfold bind. destruct (Hx s) as [s1 ->]. now exists s1.
  - apply raises_bind with (a := tt); [apply Hall | exact IH].
Qed.

Lemma range_last (p : nat) : 0 < p -> range p = seq 0 (p - 1) ++ (p - 1) :: [].
Proof.
  intros Hp. unfold range. replace p with (S (p - 1)) at 1 by lia.
  rewrite seq_S. reflexivity.
Qed.

Lemma main_layer_may_raise n_wires graph gammas betas (i : nat) :
  may_raise "IndexError"%string tt
    (gamma <- lift (index gammas i) ;;
     Main.U_C graph gamma ;;
     beta <- lift (index betas i) ;;
     Main.U_B n_wires beta).
Proof.
  apply may_raise_index. intros gamma.
  apply may_raise_bind with (a := tt).
  { eapply may_raise_emits. apply U_C_emits. }
  apply may_raise_index. intros beta.
  eapply may_raise_emits. apply U_B_emits.
Qed.

Lemma main_circuit_raises n_wires graph gammas betas edge n_layers :
  length gammas < n_layers \/ length betas < n_layers ->
  raises "IndexError"%string
         (Main.circuit_qfunc n_wires graph gammas betas edge n_layers).
Proof.
  intros Hshort. unfold Main.circuit_qfunc.
  apply raises_bind with (a := tt).
  { eapply may_raise_emits. apply (emits_for_each (seq 0 n_wires) Hadamard). }
  intros s. unfold bind at 1.
  assert (Hloop : raises "IndexError"%string
            (for_ (range n_layers) (fun i =>
               gamma <- lift (index gammas i) ;;
               Main.U_C graph gamma ;;
               beta <- lift (index betas i) ;;
               Main.U_B n_wires beta))).
  { rewrite range_last by lia.
    apply raises_for; [intros y; apply main_layer_may_raise|].
    destruct (Nat.le_gt_cases (length gammas) (n_layers - 1)) as [Hg|Hg].
    - now apply raises_index_out.
    - apply raises_index_bind. intros gamma.
      apply raises_bind with (a := tt).
      { eapply may_raise_emits. apply U_C_emits. }
      apply raises_index_out. lia. }
  destruct (Hloop s) as [s1 ->]. now exists s1.
Qed.

Lemma main_node_raises n_wires graph {W} (execute : Executor W) gammas betas
  edge n_layers (w : W) :
  length gammas < n_layers \/ length betas < n_layers ->
  Main.circuit n_wires graph execute gammas betas edge n_layers w
  = (Raise "IndexError"%string, w).
Proof.
  intros Hshort.
  destruct (main_circuit_raises n_wires graph gammas betas edge n_layers Hshort [])
    as [q Hq].
  unfold Main.circuit, qnode. now rewrite Hq.
Qed.

(** X7: with fewer than [n_layers] gammas or betas the quantum function
    of main.py raises IndexError, and [circuit] raises it without
    executing anything on the device. *)
Theorem main_circuit_index_error :
  forall (n_wires : nat) (graph : list (nat * nat)) (gammas betas : list R)
         (edge : option (nat * nat)) (n_layers : nat)
         (W : Type) (execute : Executor W) (w : W),
    length gammas < n_layers \/ length betas < n_layers ->
    fst (Main.circuit_qfunc n_wires graph gammas betas edge n_layers [])
    = Raise "IndexError"%string
    /\ Main.circuit n_wires graph execute gammas betas edge n_layers w
       = (Raise "IndexError"%string, w).
Proof.
  intros n_wires graph gammas betas edge n_layers W execute w Hshort.
  destruct (main_circuit_raises n_wires graph gammas betas edge n_layers Hshort [])
    as [q Hq].
  split; [now rewrite Hq | now apply main_node_raises].
Qed.

Lemma main_circuit_index_error_witness :
  Main.circuit Main.n_wires Main.graph (Engine.execute Engine.lcg16)
               [0%R] [] (Some (0, 1)) 1 5
  = (Raise "IndexError"%string, 5).
Proof.
  apply (main_circuit_index_error Main.n_wires Main.graph [0%R] [] (Some (0, 1)) 1
           nat (Engine.execute Engine.lcg16) 5).
  right. simpl. lia.
Defined.

(** X13: [objective] raises IndexError, leaving the device untouched,
    when [params] has fewer than two rows, or when the graph has an edge
    and a row has fewer than [n_layers] entries. *)
Theorem objective_index_error :
  forall (n_wires : nat) (graph : list (nat * nat)) (W : Type)
         (execute : Executor W) (n_layers : nat) (params : list (list R)) (w : W),
    length params < 2
    \/ (graph <> []
        /\ exists gammas betas,
             index params 0 = Ok gammas /\ index params 1 = Ok betas
             /\ (length gammas < n_layers \/ length betas < n_layers)) ->
    Main.objective n_wires graph execute n_layers params w
    = (Raise "IndexError"%string, w).
Proof.
  intros n_wires graph W execute n_layers params w [Hrows|(Hne & gammas & betas & H0 & H1 & Hshort)];
    unfold Main.objective.
  - unfold bind at 1, lift at 1.
    destruct params as [|r0 [|r1 params]]; simpl in Hrows; try lia; reflexivity.
  - unfold bind at 1, lift at 1. rewrite H0.
    unfold bind at 1, lift at 1. rewrite H1.
    destruct graph as [|e rest]; [congruence|].
    cbn [for_acc]. unfold bind at 1. unfold bind at 1.
    now rewrite (main_node_raises n_wires (e :: rest) execute gammas betas
                   (Some e) n_layers w Hshort).
Qed.

Lemma objective_index_error_witness :
  Main.objective Main.n_wires Main.graph (Engine.execute Engine.lcg16) 1
                 [[0%R]] 3
  = (Raise "IndexError"%string, 3).
Proof.
  apply (objective_index_error Main.n_wires Main.graph nat
           (Engine.execute Engine.lcg16) 1 [[0%R]] 3).
  left. simpl. lia.
Defined.

(** ** test.py *)

Lemma test_edge_may_raise (params : list R) (layer : nat) (e : nat * nat) :
  may_raise "IndexError"%string tt
    ((fun '(i, j) =>
        qml_CNOT i j ;;
        (x <- lift (index params layer) ;; qml_RZ (-2 * x) j) ;;
        qml_CNOT i j) e).
Proof.
  destruct e as [i j].
  apply may_raise_bind with (a := tt).
  { eapply may_raise_emits. apply emits_enqueue. }
  apply may_raise_bind with (a := tt).
  - apply may_raise_index. intros x. eapply may_raise_emits. apply emits_enqueue.
  - eapply may_raise_emits. apply emits_enqueue.
Qed.

Lemma test_layer_may_raise (params : list R) (edges : list (nat * nat))
  (n p layer : nat) :
  may_raise "IndexError"%string tt
    (for_ edges (fun '(i, j) =>
       qml_CNOT i j ;;
       (x <- lift (index params layer) ;; qml_RZ (-2 * x) j) ;;
       qml_CNOT i j) ;;
     for_ (range n) (fun i =>
       x <- lift (index params (p + layer)) ;;
       qml_RX (2 * x) i)).
Proof.
  apply may_raise_bind with (a := tt).
  - apply may_raise_for. intros e. apply test_edge_may_raise.
  - apply may_raise_for. intros i.
    apply may_raise_index. intros x. eapply may_raise_emits. apply emits_enqueue.
Qed.

Lemma test_circuit_may_raise (params : list R) (edges : list (nat * nat))
  (p n : nat) :
  Test.num_qubits edges = Ok n ->
  may_raise "IndexError"%string
            (map (fun '(i, j) => Expval (PauliZZ i j)) edges)
            (Test.qaoa_circuit params edges p).
Proof.
  intros Hn q. unfold Test.qaoa_circuit.
  unfold bind at 1, lift at 1. rewrite Hn.
  revert q. apply may_raise_bind with (a := tt).
  { eapply may_raise_emits. apply (emits_for_each (seq 0 n) Hadamard). }
  apply may_raise_bind with (a := tt).
  - apply may_raise_for. intros layer. apply test_layer_may_raise.
  - eapply may_raise_emits. apply emits_ret.
Qed.

Lemma test_circuit_raises (params : list R) (edges : list (nat * nat))
  (p n : nat) :
  Test.num_qubits edges = Ok n -> 0 < n ->
  length params < 2 * p ->
  raises "IndexError"%string (Test.qaoa_circuit params edges p).
Proof.
  intros Hn Hpos Hshort q. unfold Test.qaoa_circuit.
  unfold bind at 1, lift at 1. rewrite Hn.
  revert q. apply raises_bind with (a := tt).
  { eapply may_raise_emits. apply (emits_for_each (seq 0 n) Hadamard). }
  intros s. unfold bind at 1.
  assert (Hloop : raises "IndexError"%string
            (for_ (range p) (fun layer =>
               for_ edges (fun '(i, j) =>
                 qml_CNOT i j ;;
                 (x <- lift (index params layer) ;; qml_RZ (-2 * x) j) ;;
                 qml_CNOT i j) ;;
               for_ (range n) (fun i =>
                 x <- lift (index params (p + layer)) ;;
                 qml_RX (2 * x) i)))).
  { rewrite range_last by lia.
    apply raises_for; [intros layer; apply test_layer_may_raise|].
    apply raises_bind with (a := tt).
    - apply may_raise_for. intros e. apply test_edge_may_raise.
    - unfold range. destruct n as [|n]; [lia|].
      change (seq 0 (S n)) with ([] ++ 0 :: seq 1 n).
      apply raises_for.
      + intros i. apply may_raise_index. intros x.
        eapply may_raise_emits. apply emits_enqueue.
      + apply raises_index_out. lia. }
  destruct (Hloop s) as [s1 ->]. now exists s1.
Qed.

Lemma num_qubits_positive (edges : list (nat * nat)) (n : nat) :
  Test.num_qubits edges = Ok n -> 0 < n /\ edges <> [].
Proof.
  unfold Test.num_qubits. destruct edges as [|e edges]; [discriminate|].
  simpl. intros [= <-]. split; [lia | discriminate].
Qed.

(** X8: [qaoa_circuit] of test.py raises ValueError exactly when the edge
    list is empty, and then nothing has been recorded; [optimize_qaoa]
    fails the same way before it creates its device. *)
Theorem qaoa_circuit_value_error :
  forall (params : list R) (edges : list (nat * nat)) (p : nat),
    (fst (Test.qaoa_circuit params edges p []) = Raise "ValueError"%string
     <-> edges = [])
    /\ Test.qaoa_circuit params [] p [] = (Raise "ValueError"%string, [])
    /\ Test.optimize_qaoa_dev [] = Raise "ValueError"%string.
Proof.
  intros params edges p. split; [|split; reflexivity].
  split.
  - intros H. destruct edges as [|e edges]; [reflexivity|].
    destruct (num_qubits_spec (e :: edges)) as (m & Hn & _); [discriminate|].
    destruct (test_circuit_may_raise params (e :: edges) p (m + 1) Hn [])
      as [q [Hq|Hq]]; rewrite Hq in H; discriminate.
  - intros ->. reflexivity.
Qed.

(** X9: on a non-empty edge list, [qaoa_circuit] raises IndexError
    exactly when [params] has fewer than [2p] entries. *)
Theorem qaoa_circuit_index_error :
  forall (params : list R) (edges : list (nat * nat)) (p : nat),
    edges <> [] ->
    (fst (Test.qaoa_circuit params edges p []) = Raise "IndexError"%string
     <-> length params < 2 * p).
Proof.
  intros params edges p Hne.
  destruct (num_qubits_spec edges Hne) as (m & Hn & _).
  split.
  - intros H. destruct (Nat.lt_ge_cases (length params) (2 * p)) as [|Hlen];
      [assumption|].
    rewrite (test_circuit_emits (m + 1) edges params p Hn Hlen) in H.
    discriminate.
  - intros Hshort.
    destruct (test_circuit_raises params edges p (m + 1) Hn ltac:(lia) Hshort [])
      as [q ->].
    reflexivity.
Qed.

Lemma qaoa_circuit_index_error_witness :
  fst (Test.qaoa_circuit [0%R; 0%R; 0%R] [(0, 1); (1, 2)] 2 [])
  = Raise "IndexError"%string
  <-> length [0%R; 0%R; 0%R] < 2 * 2.
Proof.
  apply (qaoa_circuit_index_error [0%R; 0%R; 0%R] [(0, 1); (1, 2)] 2).
  discriminate.
Defined.

Lemma gate_sequence_wires (n : nat) (edges : list (nat * nat)) (p : nat)
  (angle params : nat -> R) :
  (forall v, Spec.vertex edges v -> v < n) ->
  Forall (fun op => Forall (fun w => w < n) (op_wires op))
         (Spec.gate_sequence n edges p angle params).
Proof.
  intros Hv. apply Forall_forall. intros op Hop.
  unfold Spec.gate_sequence in Hop. apply in_app_or in Hop.
  destruct Hop as [Hop|Hop].
  - apply in_map_iff in Hop. destruct Hop as (w & <- & Hw).
    apply in_seq in Hw. simpl. constructor; [lia | constructor].
  - apply in_flat_map in Hop. destruct Hop as (l & _ & Hop).
    unfold Spec.layer_gates in Hop. apply in_app_or in Hop.
    destruct Hop as [Hop|Hop].
    + apply in_flat_map in Hop. destruct Hop as (e & He & Hop).
      assert (Hf : fst e < n) by (apply Hv; exists e; auto).
      assert (Hs : snd e < n) by (apply Hv; exists e; auto).
      simpl in Hop. destruct Hop as [<-|[<-|[<-|[]]]]; simpl;
        repeat constructor; assumption.
    + apply in_map_iff in Hop. destruct Hop as (w & <- & Hw).
      apply in_seq in Hw. simpl. constructor; [lia | constructor].
Qed.

(** X10: whenever [qaoa_circuit] returns, every operation it recorded
    acts on wires of the register of [num_qubits] wires that
    [optimize_qaoa] gives its device. *)
Theorem qaoa_circuit_register :
  forall (params : list R) (edges : list (nat * nat)) (p : nat)
         (ms : list (Measurement R)) (ops : list Op),
    Test.qaoa_circuit params edges p [] = (Ok ms, ops) ->
    exists n : nat,
      Test.num_qubits edges = Ok n
      /\ Test.optimize_qaoa_dev edges = Ok (mkDevice "default.qubit" n None)
      /\ Forall (fun op => Forall (fun w => w < n) (op_wires op)) ops.
Proof.
  intros params edges p ms ops Hrun.
  assert (Hne : edges <> []).
  { intros ->. discriminate. }
  destruct (num_qubits_spec edges Hne) as (m & Hn & _ & Hmax).
  exists (m + 1). split; [exact Hn|]. split.
  { unfold Test.optimize_qaoa_dev. now rewrite Hn. }
  destruct (Nat.lt_ge_cases (length params) (2 * p)) as [Hshort|Hlen].
  - destruct (test_circuit_raises params edges p (m + 1) Hn ltac:(lia) Hshort [])
      as [q Hq].
    rewrite Hq in Hrun. discriminate.
  - rewrite (test_circuit_emits (m + 1) edges params p Hn Hlen) in Hrun.
    injection Hrun as _ <-. cbn [app].
    apply gate_sequence_wires. intros v Hv. specialize (Hmax v Hv). lia.
Qed.

Lemma qaoa_circuit_register_witness :
  exists n : nat,
    Test.num_qubits [(0, 1); (1, 2)] = Ok n
    /\ Test.optimize_qaoa_dev [(0, 1); (1, 2)] = Ok (mkDevice "default.qubit" n None).
Proof.
  destruct (qaoa_circuit_register [0%R; 0%R] [(0, 1); (1, 2)] 1 _ _
              (test_circuit_emits 3 [(0, 1); (1, 2)] [0%R; 0%R] 1 eq_refl
                 (Nat.le_refl 2) []))
    as (n & Hn & Hd & _).
  exists n. split; assumption.
Defined.

(* ================================================================== *)
(** * Size of the recorded queue, and parameters that are not read *)
(* ================================================================== *)

Lemma length_flat_map_const {X Y} (f : X -> list Y) (c : nat) (l : list X) :
  (forall x, length (f x) = c) -> length (flat_map f l) = length l * c.
Proof.
  intros Hf. induction l as [|x l IH]; simpl; [reflexivity|].
  now rewrite length_app, Hf, IH.
Qed.

Lemma length_layer_gates n edges angle beta2 :
  length (Spec.layer_gates n edges angle beta2) = 3 * length edges + n.
Proof.
  unfold Spec.layer_gates.
  rewrite length_app, length_map, length_seq.
  rewrite (length_flat_map_const _ 3) by reflexivity. lia.
Qed.

Lemma length_recorded n edges p (angle beta2 : nat -> R) :
  length (map Hadamard (seq 0 n)
          ++ flat_map (fun l => Spec.layer_gates n edges (angle l) (beta2 l))
                      (seq 0 p))
  = n + p * (3 * length edges + n).
Proof.
  rewrite length_app, length_map, length_seq.
  rewrite (length_flat_map_const _ (3 * length edges + n))
    by (intros l; apply length_layer_gates).
  now rewrite length_seq.
Qed.

(** X11: the circuit of main.py records [n_wires + p * (3 * |graph| +
    n_wires)] operations, and [qaoa_circuit] of test.py records
    [n + p * (3 * |edges| + n)] for its register size [n]. *)
Theorem recorded_gate_count :
  forall (n_wires : nat) (graph : list (nat * nat)) (gammas betas : list R)
         (edge : option (nat * nat)) (p : nat)
         (edges : list (nat * nat)) (n : nat) (params : list R),
    p <= length gammas -> p <= length betas ->
    Test.num_qubits edges = Ok n -> 2 * p <= length params ->
    length (snd (Main.circuit_qfunc n_wires graph gammas betas edge p []))
    = n_wires + p * (3 * length graph + n_wires)
    /\ length (snd (Test.qaoa_circuit params edges p []))
       = n + p * (3 * length edges + n).
Proof.
  intros n_wires graph gammas betas edge p edges n params Hg Hb Hn Hp. split.
  - rewrite (main_circuit_emits n_wires graph gammas betas edge p Hg Hb).
    cbn [snd app]. apply length_recorded.
  - rewrite (test_circuit_emits n edges params p Hn Hp).
    cbn [snd app]. unfold Spec.gate_sequence. apply length_recorded.
Qed.

Lemma recorded_gate_count_witness :
  length (snd (Main.circuit_qfunc Main.n_wires Main.graph [0%R] [0%R] None 1 []))
  = Main.n_wires + 1 * (3 * length Main.graph + Main.n_wires).
Proof.
  apply (recorded_gate_count Main.n_wires Main.graph [0%R] [0%R] None 1
           Main.graph 4 [0%R; 0%R]); try reflexivity; simpl; lia.
Defined.

(** X14: entries after the first [p] gammas and betas (main.py), or
    after the first [2p] parameters (test.py), are never read: appending
    entries changes neither the result nor the recorded queue. *)
Theorem trailing_parameters_ignored :
  forall (n_wires : nat) (graph : list (nat * nat)) (gammas betas : list R)
         (edge : option (nat * nat)) (p : nat)
         (edges : list (nat * nat)) (params : list R)
         (more_gammas more_betas more_params : list R) (q : list Op),
    p <= length gammas -> p <= length betas ->
    edges <> [] -> 2 * p <= length params ->
    Main.circuit_qfunc n_wires graph (gammas ++ more_gammas) (betas ++ more_betas)
                       edge p q
    = Main.circuit_qfunc n_wires graph gammas betas edge p q
    /\ Test.qaoa_circuit (params ++ more_params) edges p q
       = Test.qaoa_circuit params edges p q.
Proof.
  intros n_wires graph gammas betas edge p edges params mg mb mp q Hg Hb Hne Hp.
  split.
  - rewrite (main_circuit_emits n_wires graph gammas betas edge p Hg Hb).
    rewrite (main_circuit_emits n_wires graph (gammas ++ mg) (betas ++ mb) edge p)
      by (rewrite length_app; lia).
    do 3 f_equal. apply flat_map_ext_in. intros l Hl. apply in_seq in Hl.
    now rewrite !app_nth1 by lia.
  - destruct (num_qubits_spec edges Hne) as (m & Hn & _).
    rewrite (test_circuit_emits (m + 1) edges params p Hn Hp).
    rewrite (test_circuit_emits (m + 1) edges (params ++ mp) p Hn)
      by (rewrite length_app; lia).
    unfold Spec.gate_sequence. do 3 f_equal.
    apply flat_map_ext_in. intros l Hl. apply in_seq in Hl.
    now rewrite !app_nth1 by lia.
Qed.

Lemma trailing_parameters_ignored_witness :
  Main.circuit_qfunc Main.n_wires Main.graph ([1%R] ++ [5%R]) ([2%R] ++ [])
                     None 1 []
  = Main.circuit_qfunc Main.n_wires Main.graph [1%R] [2%R] None 1 [].
Proof.
  apply (trailing_parameters_ignored Main.n_wires Main.graph [1%R] [2%R] None 1
           Main.graph [0%R; 0%R] [5%R] [] [] []);
    try discriminate; simpl; lia.
Defined.

(* ================================================================== *)
(** * Range of the objective *)
(* ================================================================== *)

Lemma objective_loop_range {W} (expval_of : nat * nat -> SE W R)
  (edges : list (nat * nat)) :
  (forall e w, In e edges ->
     exists v w', expval_of e w = (Ok v, w') /\ (-1 <= v <= 1)%R) ->
  forall (acc : R) (w : W),
    exists c w',
      for_acc edges acc (fun neg_obj edge =>
        v <- expval_of edge ;; ret (neg_obj - 0.5 * (1 - v))%R) w = (Ok c, w')
      /\ (acc - INR (length edges) <= c <= acc)%R.
Proof.
  induction edges as [|e edges IH]; intros Hv acc w.
  - exists acc, w. split; [reflexivity|]. simpl. lra.
  - destruct (Hv e w (or_introl eq_refl)) as (v & w1 & He & Hr).
    destruct (IH (fun e0 w0 H0 => Hv e0 w0 (or_intror H0))
                 (acc - 0.5 * (1 - v))%R w1) as (c & w' & Hc & Hb).
    exists c, w'. split.
    + cbn [for_acc]. unfold bind at 1. unfold bind at 1. rewrite He.
      unfold ret at 1. exact Hc.
    + change (length (e :: edges)) with (S (length edges)).
      rewrite S_INR. lra.
Qed.

(** X12: when every run of the circuit for an edge returns a value in
    [[-1, 1]], [objective] returns a cost between minus the number of
    edges and 0. *)
Theorem objective_range :
  forall (n_wires : nat) (graph : list (nat * nat)) (W : Type)
         (execute : Executor W) (n_layers : nat) (params : list (list R))
         (gammas betas : list R) (w : W),
    index params 0 = Ok gammas ->
    index params 1 = Ok betas ->
    (forall e w0, In e graph ->
       exists (v : R) (w1 : W),
         Main.circuit n_wires graph execute gammas betas (Some e) n_layers w0
         = (Ok v, w1)
         /\ (-1 <= v <= 1)%R) ->
    exists (c : R) (w' : W),
      Main.objective n_wires graph execute n_layers params w = (Ok c, w')
      /\ (- INR (length graph) <= c <= 0)%R.
Proof.
  intros n_wires graph W execute n_layers params gammas betas w Hg Hb Hv.
  destruct (objective_loop_range
              (fun e => Main.circuit n_wires graph execute gammas betas (Some e) n_layers)
              graph Hv 0%R w) as (c & w' & Hc & Hr).
  exists c, w'. split; [|lra].
  unfold Main.objective.
  unfold bind at 1, lift at 1. rewrite Hg.
  unfold bind at 1, lift at 1. rewrite Hb. exact Hc.
Qed.

Lemma objective_range_witness :
  exists (c : R) (w' : nat),
    Main.objective Main.n_wires Main.graph (Engine.execute Engine.lcg16) 1
                   [[0%R]; [0%R]] 0 = (Ok c, w')
    /\ (- INR (length Main.graph) <= c <= 0)%R.
Proof.
  apply (objective_range Main.n_wires Main.graph nat (Engine.execute Engine.lcg16)
           1 [[0%R]; [0%R]] [0%R] [0%R] 0 eq_refl eq_refl).
  intros e w0 He. exists 0%R, w0.
  split; [now apply zero_params_circuit | lra].
Defined.

(** X15: the operations the circuit of main.py records do not depend on
    the edge argument; the edge only selects the measurement. *)
Theorem queue_independent_of_edge :
  forall (n_wires : nat) (graph : list (nat * nat)) (gammas betas : list R)
         (edge1 edge2 : option (nat * nat)) (n_layers : nat),
    n_layers <= length gammas -> n_layers <= length betas ->
    snd (Main.circuit_qfunc n_wires graph gammas betas edge1 n_layers [])
    = snd (Main.circuit_qfunc n_wires graph gammas betas edge2 n_layers [])
    /\ fst (Main.circuit_qfunc n_wires graph gammas betas edge1 n_layers [])
       = Ok (measurement_of edge1).
Proof.
  intros n_wires graph gammas betas edge1 edge2 n_layers Hg Hb.
  rewrite (main_circuit_emits n_wires graph gammas betas edge1 n_layers Hg Hb).
  rewrite (main_circuit_emits n_wires graph gammas betas edge2 n_layers Hg Hb).
  split; reflexivity.
Qed.

Lemma queue_independent_of_edge_witness :
  snd (Main.circuit_qfunc Main.n_wires Main.graph [0%R] [0%R] None 1 [])
  = snd (Main.circuit_qfunc Main.n_wires Main.graph [0%R] [0%R] (Some (0, 1)) 1 []).
Proof.
  apply (queue_independent_of_edge Main.n_wires Main.graph [0%R] [0%R] None
           (Some (0, 1)) 1); simpl; lia.
Defined.
